(** * tiktoken-go: the BPE rank-table loader ([load.go])

    A shallow embedding of [load.go] and the properties of its fetch-and-cache
    layer and of its rank-table parser.

    Go strings and byte slices are both sequences of bytes; they are modelled
    as [string] (a list of 8-bit [ascii] characters), a nil slice being the
    empty string.  Go's [int] is the 64-bit one and is modelled as [Z] with
    its range written out where the library checks it. *)

From Stdlib Require Import ZArith Lia Ascii String List Bool.
From stdpp Require Import base option list gmap strings.

Local Open Scope string_scope.
Local Open Scope Z_scope.

(** ** The Go library functions the loader calls *)

Module Go.

(** Error values.  [load.go] creates none of its own: it passes on those of
    the library functions it calls. *)
Inductive num_err := ErrSyntax | ErrRange.

Inductive error :=
| CorruptInputError (offset : Z)                       (* encoding/base64 *)
| NumError (func num : string) (err : num_err)         (* strconv *)
| OSError (op path msg : string)                       (* os, io, embed *)
| URLError (op url msg : string).                      (* net/http *)

(** A run-time panic: the only one [load.go] can raise is an index out of
    range. *)
Inductive panic :=
| IndexOutOfRange (index length : Z).

(** *** package strings *)

(** [strings.HasPrefix]. *)
Fixpoint HasPrefix (s pre : string) : bool :=
  match pre, s with
  | EmptyString, _ => true
  | String _ _, EmptyString => false
  | String p pre', String c s' => if Ascii.eqb c p then HasPrefix s' pre' else false
  end.

(** [strings.Split(s, sep)] for a separator of one byte, which is how both
    call sites use it: the substrings between the separators, one more than
    there are separators. *)
Fixpoint Split (s : string) (sep : ascii) : list string :=
  match s with
  | EmptyString => [EmptyString]
  | String c s' =>
      if Ascii.eqb c sep then EmptyString :: Split s' sep
      else match Split s' sep with
           | [] => [String c EmptyString]
           | w :: ws => String c w :: ws
           end
  end.

(** [strings.Join(elems, sep)]. *)
Fixpoint Join (elems : list string) (sep : string) : string :=
  match elems with
  | [] => EmptyString
  | [e] => e
  | e :: es => e ++ sep ++ Join es sep
  end.

(** *** package encoding/base64: [StdEncoding.DecodeString] *)

Definition byteZ (c : ascii) : Z := Z.of_N (N_of_ascii c).
Definition Zbyte (z : Z) : ascii := ascii_of_N (Z.to_N (Z.land z 255)).

(** The decode map of the standard alphabet; [None] is the map's 0xff. *)
Definition decodeMap (c : ascii) : option Z :=
  let n := byteZ c in
  if (65 <=? n) && (n <=? 90) then Some (n - 65)
  else if (97 <=? n) && (n <=? 122) then Some (n - 97 + 26)
  else if (48 <=? n) && (n <=? 57) then Some (n - 48 + 52)
  else if n =? 43 then Some 62
  else if n =? 47 then Some 63
  else None.

Definition isNewline (c : ascii) : bool :=
  Ascii.eqb c "010"%char || Ascii.eqb c "013"%char.

Definition padChar : ascii := "="%char.

(** The decoder's "skip over newlines" loop: the rest of the input and how
    many bytes were skipped. *)
Fixpoint skipNewlines (src : string) : string * Z :=
  match src with
  | String c rest =>
      if isNewline c then let '(r, n) := skipNewlines rest in (r, n + 1)
      else (src, 0)
  | EmptyString => (src, 0)
  end.

(** The bytes of a quantum of [dlen] sextets ([dlen - 1] bytes); the standard
    encoding is not strict, the unused low bits are not checked. *)
Definition quantumBytes (dbuf : list Z) (dlen : nat) : string :=
  let d i := nth i dbuf 0 in
  let val := Z.lor (Z.lor (Z.shiftl (d 0%nat) 18) (Z.shiftl (d 1%nat) 12))
                   (Z.lor (Z.shiftl (d 2%nat) 6) (d 3%nat)) in
  let b0 := String (Zbyte (Z.shiftr val 16)) EmptyString in
  let b1 := String (Zbyte (Z.shiftr val 8)) EmptyString in
  let b2 := String (Zbyte val) EmptyString in
  match dlen with
  | 4%nat => b0 ++ b1 ++ b2
  | 3%nat => b0 ++ b1
  | 2%nat => b0
  | _ => EmptyString
  end.

(** [Decode]'s loop over [decodeQuantum], as one pass over the input: [si] is
    the index of the next byte, [j] the number of sextets of the current
    quantum read so far, [dbuf] these sextets, [len] the length of the whole
    input and [out] the bytes decoded so far.  The result is [dbuf[:n], err]. *)
Fixpoint decodeFrom (src : string) (si : Z) (j : nat) (dbuf : list Z)
    (len : Z) (out : string) : string * option error :=
  match src with
  | EmptyString =>
      match j with
      | O => (out, None)
      | _ => (out, Some (CorruptInputError (si - Z.of_nat j)))
      end
  | String c rest =>
      match decodeMap c with
      | Some v =>
          if (j =? 3)%nat
          then decodeFrom rest (si + 1) 0 [] len (out ++ quantumBytes (dbuf ++ [v]) 4)
          else decodeFrom rest (si + 1) (S j) (dbuf ++ [v]) len out
      | None =>
          if isNewline c then decodeFrom rest (si + 1) j dbuf len out
          else if negb (Ascii.eqb c padChar) then (out, Some (CorruptInputError si))
          else
            (* the end was reached and there is padding *)
            match j with
            | 0%nat | 1%nat => (out, Some (CorruptInputError si))
            | 2%nat =>
                let '(r, n) := skipNewlines rest in
                match r with
                | EmptyString => (out, Some (CorruptInputError len))
                | String c2 r2 =>
                    if negb (Ascii.eqb c2 padChar)
                    then (out, Some (CorruptInputError (si + 1 + n - 1)))
                    else
                      let '(r3, n3) := skipNewlines r2 in
                      let out' := out ++ quantumBytes dbuf 2 in
                      match r3 with
                      | EmptyString => (out', None)
                      | _ => (out', Some (CorruptInputError (si + 1 + n + 1 + n3)))
                      end
                end
            | _ =>
                let '(r3, n3) := skipNewlines rest in
                let out' := out ++ quantumBytes dbuf 3 in
                match r3 with
                | EmptyString => (out', None)
                | _ => (out', Some (CorruptInputError (si + 1 + n3)))
                end
            end
      end
  end.

Definition DecodeString (s : string) : string * option error :=
  decodeFrom s 0 0 [] (Z.of_nat (String.length s)) EmptyString.

(** *** package strconv: [Atoi] *)

Definition isDigit (c : ascii) : bool :=
  let n := byteZ c in (48 <=? n) && (n <=? 57).

Definition isSign (c : ascii) : bool :=
  Ascii.eqb c "-"%char || Ascii.eqb c "+"%char.

(** The digit loop of [Atoi]'s fast path: [None] at a byte that is no digit. *)
Fixpoint atoiDigits (s : string) (n : Z) : option Z :=
  match s with
  | EmptyString => Some n
  | String ch s' =>
      if isDigit ch then atoiDigits s' (n * 10 + (byteZ ch - 48)) else None
  end.

Definition maxUint64 : Z := 2 ^ 64 - 1.

(** [ParseUint(s, 10, 0)]'s loop: the value, or the error kind met first. *)
Fixpoint parseUintDigits (s : string) (n : Z) : Z + num_err :=
  match s with
  | EmptyString => inl n
  | String c s' =>
      if negb (isDigit c) then inr ErrSyntax
      else if (maxUint64 / 10 + 1 <=? n) then inr ErrRange
      else
        let n1 := n * 10 + (byteZ c - 48) in
        if maxUint64 <? n1 then inr ErrRange else parseUintDigits s' n1
  end.

Definition ParseUint10 (s : string) : Z + num_err :=
  match s with
  | EmptyString => inr ErrSyntax
  | _ => parseUintDigits s 0
  end.

(** [ParseInt(s, 10, 0)] with the function name of the error already set to
    Atoi, as [Atoi] does on its slow path. *)
Definition ParseInt10 (s : string) : Z * option error :=
  match s with
  | EmptyString => (0, Some (NumError "Atoi" s ErrSyntax))
  | String c0 s1 =>
      let neg := Ascii.eqb c0 "-"%char in
      let body := if isSign c0 then s1 else s in
      let cutoff := 2 ^ 63 in
      match ParseUint10 body with
      | inr ErrSyntax => (0, Some (NumError "Atoi" s ErrSyntax))
      | inr ErrRange =>
          (* ParseUint returned the largest value *)
          if neg then (- cutoff, Some (NumError "Atoi" s ErrRange))
          else (cutoff - 1, Some (NumError "Atoi" s ErrRange))
      | inl un =>
          if negb neg && (cutoff <=? un) then (cutoff - 1, Some (NumError "Atoi" s ErrRange))
          else if neg && (cutoff <? un) then (- cutoff, Some (NumError "Atoi" s ErrRange))
          else (if neg then - un else un, None)
      end
  end.

Definition Atoi (s : string) : Z * option error :=
  let sLen := Z.of_nat (String.length s) in
  if (0 <? sLen) && (sLen <? 19) then
    (* the fast path, for small integers that fit the int type *)
    match s with
    | EmptyString => (0, Some (NumError "Atoi" s ErrSyntax))
    | String c0 s1 =>
        let body := if isSign c0 then s1 else s in
        if isSign c0 && (String.length body <? 1)%nat
        then (0, Some (NumError "Atoi" s ErrSyntax))
        else match atoiDigits body 0 with
             | None => (0, Some (NumError "Atoi" s ErrSyntax))
             | Some n => (if Ascii.eqb c0 "-"%char then - n else n, None)
             end
    end
  else ParseInt10 s.

(** *** package crypto/sha1 and the [%x] verb of package fmt *)

Definition mask32 (x : Z) : Z := Z.land x 4294967295.
Definition add32 (x y : Z) : Z := mask32 (x + y).
Definition rotl32 (n x : Z) : Z :=
  mask32 (Z.lor (Z.shiftl x n) (Z.shiftr x (32 - n))).

Definition bytesOf (s : string) : list Z := map byteZ (list_ascii_of_string s).

(** The big-endian bytes of the [n] low bytes of [x]. *)
Fixpoint bigEndian (n : nat) (x : Z) : list Z :=
  match n with
  | O => []
  | S n' => Z.land (Z.shiftr x (8 * Z.of_nat n')) 255 :: bigEndian n' x
  end.

(** The message with its padding: a 0x80 byte, zero bytes up to 56 modulo 64
    and the length in bits as 64 bits. *)
Definition sha1Pad (msg : list Z) : list Z :=
  let len := Z.of_nat (length msg) in
  let zeros := Z.to_nat ((55 - len) mod 64) in
  msg ++ [128] ++ repeat 0 zeros ++ bigEndian 8 (len * 8).

Fixpoint wordsOf (n : nat) (bs : list Z) : list Z :=
  match n with
  | O => []
  | S n' =>
      match bs with
      | b0 :: b1 :: b2 :: b3 :: rest =>
          Z.lor (Z.lor (Z.shiftl b0 24) (Z.shiftl b1 16)) (Z.lor (Z.shiftl b2 8) b3)
          :: wordsOf n' rest
      | _ => []
      end
  end.

(** The message schedule, latest word first. *)
Fixpoint schedule (n : nat) (wrev : list Z) : list Z :=
  match n with
  | O => wrev
  | S n' =>
      let x i := nth i wrev 0 in
      let w := rotl32 1 (Z.lxor (Z.lxor (x 2%nat) (x 7%nat)) (Z.lxor (x 13%nat) (x 15%nat))) in
      schedule n' (w :: wrev)
  end.

Definition sha1State : Type := Z * Z * Z * Z * Z.

Definition sha1Round (i : Z) (st : sha1State) (w : Z) : sha1State :=
  let '(a, b, c, d, e) := st in
  let '(f, k) :=
    if i <? 20 then (Z.lor (Z.land b c) (Z.land (Z.lxor b 4294967295) d), 1518500249)
    else if i <? 40 then (Z.lxor (Z.lxor b c) d, 1859775393)
    else if i <? 60 then (Z.lor (Z.lor (Z.land b c) (Z.land b d)) (Z.land c d), 2400959708)
    else (Z.lxor (Z.lxor b c) d, 3395469782) in
  let t := add32 (add32 (add32 (add32 (rotl32 5 a) f) e) w) k in
  (t, a, rotl32 30 b, c, d).

Fixpoint sha1Rounds (i : Z) (ws : list Z) (st : sha1State) : sha1State :=
  match ws with
  | [] => st
  | w :: ws' => sha1Rounds (i + 1) ws' (sha1Round i st w)
  end.

Definition sha1Block (h : sha1State) (block : list Z) : sha1State :=
  let ws := rev (schedule 64 (rev (wordsOf 16 block))) in
  let '(h0, h1, h2, h3, h4) := h in
  let '(a, b, c, d, e) := sha1Rounds 0 ws h in
  (add32 h0 a, add32 h1 b, add32 h2 c, add32 h3 d, add32 h4 e).

Fixpoint sha1Blocks (n : nat) (h : sha1State) (bs : list Z) : sha1State :=
  match n with
  | O => h
  | S n' =>
      match bs with
      | [] => h
      | _ => sha1Blocks n' (sha1Block h (firstn 64 bs)) (skipn 64 bs)
      end
  end.

(** [sha1.Sum]: the 20 bytes of the digest. *)
Definition sha1Sum (data : string) : list Z :=
  let bs := sha1Pad (bytesOf data) in
  let '(h0, h1, h2, h3, h4) :=
    sha1Blocks (length bs) (1732584193, 4023233417, 2562383102, 271733878, 3285377520) bs in
  bigEndian 4 h0 ++ bigEndian 4 h1 ++ bigEndian 4 h2 ++ bigEndian 4 h3 ++ bigEndian 4 h4.

Definition hexDigit (d : Z) : ascii :=
  if d <? 10 then ascii_of_N (Z.to_N (48 + d)) else ascii_of_N (Z.to_N (87 + d)).

(** [fmt.Sprintf("%x", b)] for a byte array: two lower-case digits a byte. *)
Fixpoint hexOf (bs : list Z) : string :=
  match bs with
  | [] => EmptyString
  | b :: bs' => String (hexDigit (Z.shiftr b 4)) (String (hexDigit (Z.land b 15)) (hexOf bs'))
  end.

(** *** package path/filepath, with the Unix separator *)

Definition Separator : ascii := "/"%char.

(** The elements [Clean] keeps, latest first.  An element is dropped when it
    is empty or a dot; a dot-dot removes the element before it when there is
    one to remove, is dropped at the root and is kept otherwise. *)
Fixpoint cleanElems (rooted : bool) (elems : list string) (out : list string)
    : list string :=
  match elems with
  | [] => out
  | e :: es =>
      if String.eqb e "" then cleanElems rooted es out
      else if String.eqb e "." then cleanElems rooted es out
      else if String.eqb e ".." then
        match out with
        | [] => cleanElems rooted es (if rooted then [] else [".."])
        | top :: out' =>
            if String.eqb top ".." then cleanElems rooted es (".." :: out)
            else cleanElems rooted es out'
        end
      else cleanElems rooted es (e :: out)
  end.

(** [filepath.Clean]. *)
Definition Clean (path : string) : string :=
  match path with
  | EmptyString => "."
  | String c _ =>
      let rooted := Ascii.eqb c Separator in
      let out := Join (rev (cleanElems rooted (Split path Separator) [])) "/" in
      if rooted then String Separator out
      else if String.eqb out "" then "." else out
  end.

(** [filepath.Join] of two elements: empty elements are ignored and the
    result is cleaned; it is empty when both are empty. *)
Definition filepathJoin (a b : string) : string :=
  if negb (String.eqb a "") then Clean (a ++ String Separator b)
  else if negb (String.eqb b "") then Clean b
  else "".

End Go.

(** ** The operating system as [load.go] sees it *)

Module Sys.
Import Go.

(** An open file or response body. *)
Definition handle := nat.

(** [*http.Response], with the two fields that matter here. *)
Record Response := { StatusCode : Z; Body : handle }.

(** [os.ModePerm]. *)
Definition ModePerm : Z := 511.

(** The calls [load.go] makes that leave the program, each with the type of
    what it returns.  A Go result [(x, err)] is a pair whose error is [None]
    for nil; a result that is one or the other is a sum.  A deferred [Close]
    is the call [Close] where the function returns.  [uuid.New] panics when
    the random source fails and at no other time; that is left out. *)
Inductive call : Type -> Type :=
| Getenv (key : string) : call string
| TempDir : call string
| Open (name : string) : call (handle + error)
| ReadAll (f : handle) : call (string * option error)
| Close (f : handle) : call (option error)
| HttpGet (url : string) : call (Response + error)
| Stat (name : string) : call (option error)
| ReadFile (name : string) : call (string * option error)
| MkdirAll (path : string) (perm : Z) : call (option error)
| UuidNewString : call string                 (* uuid.New().String() *)
| WriteFile (name data : string) (perm : Z) : call (option error)
| Rename (oldpath newpath : string) : call (option error).

(** A program: a value, or a call and what to do with its result. *)
Inductive Prog (A : Type) : Type :=
| Ret (a : A)
| Vis {R : Type} (c : call R) (k : R -> Prog A).
Arguments Ret {A} a.
Arguments Vis {A R} c k.

Fixpoint bind {A B : Type} (p : Prog A) (f : A -> Prog B) : Prog B :=
  match p with
  | Ret a => f a
  | Vis c k => Vis c (fun r => bind (k r) f)
  end.

Definition trigger {R : Type} (c : call R) : Prog R := Vis c Ret.

End Sys.

Notation "x <- p ;; q" := (Sys.bind p (fun x => q))
  (at level 100, p at next level, right associativity).

(** ** [load.go] *)

Module Load.
Import Go Sys.

(** [map[string]int]. *)
Abbreviation RankTable := (gmap string Z).

(** What a loader call comes to: [(bpeRanks, nil)], [(nil, err)], or a
    run-time panic. *)
Inductive result :=
| Ranks (bpeRanks : RankTable)
| Failed (err : error)
| Panicked (p : panic).

(** [readFile], lines 24-40. *)
Definition readFile (blobpath : string) : Prog (string * option error) :=
  if negb (HasPrefix blobpath "http://") && negb (HasPrefix blobpath "https://") then
    r <- trigger (Open blobpath);;
    match r with
    | inr err => Ret ("", Some err)
    | inl file =>
        res <- trigger (ReadAll file);;
        _ <- trigger (Close file);;
        Ret res
    end
  else
    r <- trigger (HttpGet blobpath);;
    match r with
    | inr err => Ret ("", Some err)
    | inl resp =>
        res <- trigger (ReadAll (Body resp));;
        _ <- trigger (Close (Body resp));;
        Ret res
    end.

(** Lines 43-50 of [readFileCached]: the cache directory. *)
Definition resolveCacheDir : Prog string :=
  e1 <- trigger (Getenv "TIKTOKEN_CACHE_DIR");;
  if negb (String.eqb e1 "") then trigger (Getenv "TIKTOKEN_CACHE_DIR")
  else
    e2 <- trigger (Getenv "DATA_GYM_CACHE_DIR");;
    if negb (String.eqb e2 "") then trigger (Getenv "DATA_GYM_CACHE_DIR")
    else
      t <- trigger TempDir;;
      Ret (filepathJoin t "data-gym-cache").

(** Line 57. *)
Definition cacheKeyOf (blobpath : string) : string := hexOf (sha1Sum blobpath).

(** Line 70. *)
Definition tmpFilenameOf (cachePath uuid : string) : string :=
  cachePath ++ "." ++ uuid ++ ".tmp".

(** Lines 69-74 of [readFileCached]: the cache is filled. *)
Definition populate (cacheDir cachePath contents : string)
    : Prog (string * option error) :=
  _ <- trigger (MkdirAll cacheDir ModePerm);;
  u <- trigger UuidNewString;;
  let tmpFilename := tmpFilenameOf cachePath u in
  werr <- trigger (WriteFile tmpFilename contents ModePerm);;
  match werr with
  | Some err => Ret ("", Some err)
  | None =>
      rerr <- trigger (Rename tmpFilename cachePath);;
      Ret (contents, rerr)
  end.

(** Lines 52-74 of [readFileCached], the cache directory known. *)
Definition readFileCachedIn (cacheDir blobpath : string)
    : Prog (string * option error) :=
  if String.eqb cacheDir "" then
    (* disable caching *)
    readFile blobpath
  else
    let cacheKey := cacheKeyOf blobpath in
    let cachePath := filepathJoin cacheDir cacheKey in
    serr <- trigger (Stat cachePath);;
    match serr with
    | None => trigger (ReadFile cachePath)
    | Some _ =>
        res <- readFile blobpath;;
        let '(contents, err) := res in
        match err with
        | Some e => Ret ("", Some e)
        | None => populate cacheDir cachePath contents
        end
    end.

(** [readFileCached], lines 42-75. *)
Definition readFileCached (blobpath : string) : Prog (string * option error) :=
  cacheDir <- resolveCacheDir;;
  readFileCachedIn cacheDir blobpath.

(** [parts[i]]: an index out of range panics. *)
Definition index (parts : list string) (i : nat) : string + panic :=
  match nth_error parts i with
  | Some p => inl p
  | None => inr (IndexOutOfRange (Z.of_nat i) (Z.of_nat (length parts)))
  end.

(** The body of the loop of [loadTiktokenBpe], lines 85-97: [inl] is the
    table after the line, [inr] what the function ends with. *)
Definition loadLine (bpeRanks : RankTable) (line : string) : RankTable + result :=
  if String.eqb line "" then inl bpeRanks
  else
    let parts := Split line " "%char in
    match index parts 0 with
    | inr p => inr (Panicked p)
    | inl part0 =>
        let '(token, err) := DecodeString part0 in
        match err with
        | Some e => inr (Failed e)
        | None =>
            match index parts 1 with
            | inr p => inr (Panicked p)
            | inl part1 =>
                let '(rank, err) := Atoi part1 in
                match err with
                | Some e => inr (Failed e)
                | None => inl (<[token := rank]> bpeRanks)
                end
            end
        end
    end.

(** The loop of [loadTiktokenBpe], lines 84-99. *)
Fixpoint loadLines (lines : list string) (bpeRanks : RankTable) : result :=
  match lines with
  | [] => Ranks bpeRanks
  | line :: rest =>
      match loadLine bpeRanks line with
      | inl bpeRanks' => loadLines rest bpeRanks'
      | inr r => r
      end
  end.

(** Lines 83-99 of [loadTiktokenBpe]: the contents are parsed. *)
Definition parseBpe (contents : string) : result :=
  loadLines (Split contents "010"%char) ∅.

(** [loadTiktokenBpe], lines 77-100. *)
Definition loadTiktokenBpe (tiktokenBpeFile : string) : Prog result :=
  res <- readFileCached tiktokenBpeFile;;
  let '(contents, err) := res in
  match err with
  | Some e => Ret (Failed e)
  | None => Ret (parseBpe contents)
  end.

(** [embed.FS]: a read-only tree that is part of the program.  A name is a
    file with its contents or a directory, which opens and cannot be read:
    the error of the read names the directory with a slash at its end, as
    [embed] keeps the names of directories. *)
Inductive embedEntry := EmbedFile (data : string) | EmbedDir.
Abbreviation embedFS := (gmap string embedEntry).

Definition embedOpen (fs : embedFS) (path : string) : embedEntry + error :=
  match fs !! path with
  | Some f => inl f
  | None => inr (OSError "open" path "file does not exist")
  end.

Definition embedReadAll (path : string) (f : embedEntry) : string * option error :=
  match f with
  | EmbedFile data => (data, None)
  | EmbedDir => ("", Some (OSError "read" (path ++ "/") "is a directory"))
  end.

(** The body of the loop of [LoadTiktokenBpeFromFS], lines 122-134. *)
Definition loadLineFS (bpeRanks : RankTable) (line : string) : RankTable + result :=
  if String.eqb line "" then inl bpeRanks
  else
    let parts := Split line " "%char in
    match index parts 0 with
    | inr p => inr (Panicked p)
    | inl part0 =>
        let '(token, err) := DecodeString part0 in
        match err with
        | Some e => inr (Failed e)
        | None =>
            match index parts 1 with
            | inr p => inr (Panicked p)
            | inl part1 =>
                let '(rank, err) := Atoi part1 in
                match err with
                | Some e => inr (Failed e)
                | None => inl (<[token := rank]> bpeRanks)
                end
            end
        end
    end.

(** The loop of [LoadTiktokenBpeFromFS], lines 121-136. *)
Fixpoint loadLinesFS (lines : list string) (bpeRanks : RankTable) : result :=
  match lines with
  | [] => Ranks bpeRanks
  | line :: rest =>
      match loadLineFS bpeRanks line with
      | inl bpeRanks' => loadLinesFS rest bpeRanks'
      | inr r => r
      end
  end.

(** Lines 120-136 of [LoadTiktokenBpeFromFS]: the contents are parsed. *)
Definition parseBpeFS (contents : string) : result :=
  loadLinesFS (Split contents "010"%char) ∅.

(** The body of [defaultBpeLoader.LoadTiktokenBpeFromFS], lines 108-137.
    The deferred [Close] of an embedded file does nothing and is left out. *)
Definition loadTiktokenBpeFromFS (fs : embedFS) (path : string) : result :=
  match embedOpen fs path with
  | inr err => Failed err
  | inl file =>
      let '(contents, err) := embedReadAll path file in
      match err with
      | Some e => Failed e
      | None => parseBpeFS contents
      end
  end.

(** The interface [BpeLoader], lines 19-22. *)
Class BpeLoader (L : Type) : Type := {
  LoadTiktokenBpe : L -> string -> Prog result;
  LoadTiktokenBpeFromFS : L -> embedFS -> string -> result;
}.

(** [defaultBpeLoader], lines 102-137, and [NewDefaultBpeLoader]. *)
Inductive defaultBpeLoader : Type := DefaultBpeLoader.

#[export] Instance defaultBpeLoader_BpeLoader : BpeLoader defaultBpeLoader := {
  LoadTiktokenBpe _ tiktokenBpeFile := loadTiktokenBpe tiktokenBpeFile;
  LoadTiktokenBpeFromFS _ fs path := loadTiktokenBpeFromFS fs path;
}.

Definition NewDefaultBpeLoader : defaultBpeLoader := DefaultBpeLoader.

End Load.

(** ** A reference operating system *)

Module OS.
Import Go Sys.

(** One call and what it returned. *)
Inductive event : Type :=
| Ev {R : Type} (c : call R) (r : R).

(** The state of the world around the program: the environment, what
    [os.TempDir] returns, the regular files by path, what a GET request to a
    URL comes to (a status and a body, or a failure of the transport), the
    data behind the open files and the UUID strings to come.  [fault] says
    which calls fail for a reason the rest of the state does not show
    (permissions, a full disk, a broken connection) and [short] how much of
    the data got through when a transfer fails: [None] for nothing, not even
    the file.  Directories are not in the state: [MkdirAll] changes no file,
    and a write into a directory that is missing is a fault. *)
Record World : Type := mkWorld {
  env : gmap string string;
  tempDir : string;
  files : gmap string string;
  net : string -> (Z * string) + error;
  handles : list string;
  uuids : nat -> string;
  uuidCount : nat;
  fault : forall R : Type, call R -> option error;
  short : option nat;
}.

Definition setFiles (fs : gmap string string) (w : World) : World :=
  mkWorld (env w) (tempDir w) fs (net w) (handles w) (uuids w) (uuidCount w)
          (fault w) (short w).

Definition pushHandle (data : string) (w : World) : World :=
  mkWorld (env w) (tempDir w) (files w) (net w) (handles w ++ [data]) (uuids w)
          (uuidCount w) (fault w) (short w).

Definition nextUuid (w : World) : World :=
  mkWorld (env w) (tempDir w) (files w) (net w) (handles w) (uuids w)
          (S (uuidCount w)) (fault w) (short w).

Definition takeBytes (n : nat) (s : string) : string := String.substring 0 n s.

Definition notExist (op name : string) : error :=
  OSError op name "no such file or directory".

(** The part of the data an interrupted read returns. *)
Definition readShort (w : World) (data : string) : string :=
  match short w with
  | Some n => takeBytes n data
  | None => ""
  end.

(** The files after an interrupted [WriteFile]. *)
Definition writeShort (w : World) (name data : string) : gmap string string :=
  match short w with
  | Some n => <[name := takeBytes n data]> (files w)
  | None => files w
  end.

(** What a call returns and the world after it. *)
Definition perform {R : Type} (c : call R) (w : World) : R * World :=
  match c in call R return R * World with
  | Getenv key => (default "" (env w !! key), w)
  | TempDir => (tempDir w, w)
  | Open name =>
      match fault w _ (Open name), files w !! name with
      | Some e, _ => (inr e, w)
      | None, Some data => (inl (length (handles w)), pushHandle data w)
      | None, None => (inr (notExist "open" name), w)
      end
  | ReadAll f =>
      match handles w !! f with
      | None => (("", Some (OSError "read" "" "file already closed")), w)
      | Some data =>
          match fault w _ (ReadAll f) with
          | Some e => ((readShort w data, Some e), w)
          | None => ((data, None), w)
          end
      end
  | Close f => (fault w _ (Close f), w)
  | HttpGet url =>
      match net w url with
      | inr e => (inr e, w)
      | inl (status, body) =>
          (inl {| StatusCode := status; Body := length (handles w) |},
           pushHandle body w)
      end
  | Stat name =>
      match fault w _ (Stat name), files w !! name with
      | Some e, _ => (Some e, w)
      | None, Some _ => (None, w)
      | None, None => (Some (notExist "stat" name), w)
      end
  | ReadFile name =>
      match files w !! name with
      | None => (("", Some (notExist "open" name)), w)
      | Some data =>
          match fault w _ (ReadFile name) with
          | Some e => ((readShort w data, Some e), w)
          | None => ((data, None), w)
          end
      end
  | MkdirAll path perm => (fault w _ (MkdirAll path perm), w)
  | UuidNewString => (uuids w (uuidCount w), nextUuid w)
  | WriteFile name data perm =>
      match fault w _ (WriteFile name data perm) with
      | Some e => (Some e, setFiles (writeShort w name data) w)
      | None => (None, setFiles (<[name := data]> (files w)) w)
      end
  | Rename oldpath newpath =>
      match fault w _ (Rename oldpath newpath), files w !! oldpath with
      | Some e, _ => (Some e, w)
      | None, Some data =>
          (None, setFiles (<[newpath := data]> (delete oldpath (files w))) w)
      | None, None => (Some (notExist "rename" oldpath), w)
      end
  end.

(** A program run in a world: its value, the world it leaves and the calls
    it made. *)
Fixpoint run {A : Type} (p : Prog A) (w : World) : A * World * list event :=
  match p with
  | Ret a => (a, w, [])
  | Vis c k =>
      let '(r, w') := perform c w in
      let '(a, w'', tr) := run (k r) w' in
      (a, w'', Ev c r :: tr)
  end.

Definition value {A : Type} (x : A * World * list event) : A := fst (fst x).
Definition after {A : Type} (x : A * World * list event) : World := snd (fst x).
Definition trace {A : Type} (x : A * World * list event) : list event := snd x.

(** The calls of the Source Reader: opening a path and a GET request. *)
Definition isFetch (e : event) : bool :=
  match e with
  | Ev (Open _) _ | Ev (HttpGet _) _ => true
  | _ => false
  end.

Definition isGet (e : event) : bool :=
  match e with
  | Ev (HttpGet _) _ => true
  | _ => false
  end.

(** The calls that can change a file or a directory. *)
Definition isWrite (e : event) : bool :=
  match e with
  | Ev (MkdirAll _ _) _ | Ev (WriteFile _ _ _) _ | Ev (Rename _ _) _ => true
  | _ => false
  end.

Definition isStat (e : event) : bool :=
  match e with
  | Ev (Stat _) _ => true
  | _ => false
  end.

(** What [ReadAll] returns for the data behind a handle. *)
Definition readAllOf (w : World) (f : handle) (data : string) : string * option error :=
  match fault w _ (ReadAll f) with
  | Some e => (readShort w data, Some e)
  | None => (data, None)
  end.

Definition getenv (w : World) (key : string) : string := default "" (env w !! key).

(** A trace without a call of the Source Reader, a write or a stat. *)
Definition quiet (tr : list event) : Prop :=
  Forall (fun e => isFetch e = false /\ isWrite e = false /\ isStat e = false) tr.

(** Two worlds that differ in the table of open files at most. *)
Definition sameButHandles (w w' : World) : Prop :=
  env w' = env w /\ tempDir w' = tempDir w /\ files w' = files w /\
  net w' = net w /\ uuids w' = uuids w /\ uuidCount w' = uuidCount w /\
  fault w' = fault w /\ short w' = short w.

(** Two worlds with the same environment, temporary directory and faults. *)
Definition sameConfig (w w' : World) : Prop :=
  env w' = env w /\ tempDir w' = tempDir w /\ fault w' = fault w.

End OS.

(** ** Words the specification uses *)

Module Spec.
Import Go.

(** Every byte of [s] satisfies [p]. *)
Fixpoint allBytes (p : ascii -> bool) (s : string) : bool :=
  match s with
  | EmptyString => true
  | String c s' => p c && allBytes p s'
  end.

Definition nonEmpty (s : string) : bool :=
  match s with EmptyString => false | _ => true end.

(** A decimal integer with an optional sign: one sign at most, then one
    digit at least. *)
Definition signedDecimal (s : string) : bool :=
  match s with
  | EmptyString => false
  | String c s' =>
      if isSign c then nonEmpty s' && allBytes isDigit s'
      else allBytes isDigit s
  end.

(** White space: tab, line feed, vertical tab, form feed, carriage return
    and space. *)
Definition isSpace (c : ascii) : bool :=
  let n := byteZ c in ((9 <=? n) && (n <=? 13)) || (n =? 32).

Definition whitespaceOnly (s : string) : bool := allBytes isSpace s.

Definition minInt : Z := - 2 ^ 63.
Definition maxInt : Z := 2 ^ 63 - 1.

(** An identifier whose scheme is http:// or https://. *)
Definition isHTTP (blobpath : string) : bool :=
  HasPrefix blobpath "http://" || HasPrefix blobpath "https://".

End Spec.

(** ** The cache of a world *)

Module Cache.
Import Go Sys Load OS.

(** The cache directory a call resolves in a world. *)
Definition cacheDirOf (w : World) : string := value (run resolveCacheDir w).

(** [CacheDirectory/CacheKey] for an identifier. *)
Definition cachePathOf (w : World) (blobpath : string) : string :=
  filepathJoin (cacheDirOf w) (cacheKeyOf blobpath).

(** The source of an identifier has the fixed payload [payload] in a world:
    when the Source Reader succeeds there, these are the bytes it
    returns. *)
Definition fixedPayload (blobpath payload : string) (w : World) : Prop :=
  forall b, value (run (readFile blobpath) w) = (b, None) -> b = payload.

End Cache.

(** ** Calls that run at the same time *)

Module Conc.
Import Go Sys Load OS.

(** What [readFileCached] returns. *)
Abbreviation Res := (string * option error)%type.

(** A goroutine inside [readFileCached]: between two calls, or inside
    [ioutil.WriteFile], which opens the file with truncation, writes and
    closes, with [rest] still to write. *)
Inductive tstate : Type :=
| Running (p : Prog Res)
| Writing (name data rest : string) (perm : Z) (k : option error -> Prog Res).

(** A goroutine with the identifier it was called with and, for the
    statements only, the calls it has made. *)
Record thread : Type := mkThread {
  ident : string;
  evs : list event;
  st : tstate;
}.

Record config : Type := mkConfig {
  world : World;
  pool : list thread;
}.

(** The UUID strings an event and a goroutine have drawn. *)
Definition uuidOf (e : event) : option string :=
  match e with
  | Ev c r =>
      match c in call R return R -> option string with
      | UuidNewString => fun u => Some u
      | _ => fun _ => None
      end r
  end.

Definition drew (u : string) (evs : list event) : Prop :=
  In (Some u) (map uuidOf evs).

(** [uuid.New] returns a value no goroutine has drawn before. *)
Definition fresh (u : string) (ts : list thread) : Prop :=
  forall i t, ts !! i = Some t -> ~ drew u (evs t).

(** The calls that are one step.  [WriteFile] is several and the UUID is
    drawn by a rule of its own. *)
Definition atomic {R : Type} (c : call R) : bool :=
  match c with
  | WriteFile _ _ _ | UuidNewString => false
  | _ => true
  end.

(** [chunk] written at offset [off] of a file that holds [old]; a gap is
    filled with zero bytes. *)
Fixpoint overwrite (chunk old : string) : string :=
  match chunk with
  | EmptyString => old
  | String c chunk' =>
      String c (overwrite chunk' (match old with String _ old' => old' | EmptyString => EmptyString end))
  end.

Fixpoint writeAt (old : string) (off : nat) (chunk : string) : string :=
  match off with
  | O => overwrite chunk old
  | S off' =>
      match old with
      | EmptyString => String zero (writeAt EmptyString off' chunk)
      | String c old' => String c (writeAt old' off' chunk)
      end
  end.

(** The files after a write through a descriptor opened under [name]: a
    file that was removed or renamed since is not seen under that name. *)
Definition writeThrough (w : World) (name : string) (off : nat) (chunk : string)
    : gmap string string :=
  match files w !! name with
  | Some old => <[name := writeAt old off chunk]> (files w)
  | None => files w
  end.

(** One step of the goroutines and the world around them. *)
Inductive step : config -> config -> Prop :=
| step_world w w' ts :
    (* anything but the files and the open files may change at any time *)
    files w' = files w -> handles w' = handles w ->
    step (mkConfig w ts) (mkConfig w' ts)
| step_call i id evs R (c : call R) k w ts :
    ts !! i = Some (mkThread id evs (Running (Vis c k))) ->
    atomic c = true ->
    step (mkConfig w ts)
         (mkConfig (snd (perform c w))
            (<[i := mkThread id (evs ++ [Ev c (fst (perform c w))])
                             (Running (k (fst (perform c w))))]> ts))
| step_uuid i id evs k w ts u :
    ts !! i = Some (mkThread id evs (Running (Vis UuidNewString k))) ->
    String.length u = 36%nat -> fresh u ts ->
    step (mkConfig w ts)
         (mkConfig w (<[i := mkThread id (evs ++ [Ev UuidNewString u]) (Running (k u))]> ts))
| step_open_fails i id evs name data perm k w ts e :
    ts !! i = Some (mkThread id evs (Running (Vis (WriteFile name data perm) k))) ->
    step (mkConfig w ts)
         (mkConfig w (<[i := mkThread id (evs ++ [Ev (WriteFile name data perm) (Some e)])
                                      (Running (k (Some e)))]> ts))
| step_open i id evs name data perm k w ts :
    ts !! i = Some (mkThread id evs (Running (Vis (WriteFile name data perm) k))) ->
    step (mkConfig w ts)
         (mkConfig (setFiles (<[name := ""]> (files w)) w)
            (<[i := mkThread id evs (Writing name data data perm k)]> ts))
| step_write i id evs name data chunk rest perm k w ts :
    ts !! i = Some (mkThread id evs (Writing name data (chunk ++ rest) perm k)) ->
    step (mkConfig w ts)
         (mkConfig
            (setFiles (writeThrough w name
                         (String.length data - String.length (chunk ++ rest)) chunk) w)
            (<[i := mkThread id evs (Writing name data rest perm k)]> ts))
| step_write_fails i id evs name data rest perm k w ts e :
    ts !! i = Some (mkThread id evs (Writing name data rest perm k)) ->
    step (mkConfig w ts)
         (mkConfig w (<[i := mkThread id (evs ++ [Ev (WriteFile name data perm) (Some e)])
                                      (Running (k (Some e)))]> ts))
| step_write_done i id evs name data perm k w ts :
    ts !! i = Some (mkThread id evs (Writing name data "" perm k)) ->
    step (mkConfig w ts)
         (mkConfig w (<[i := mkThread id (evs ++ [Ev (WriteFile name data perm) None])
                                      (Running (k None))]> ts)).

(** The states a configuration can come to. *)
Inductive reachable (c0 : config) : config -> Prop :=
| reach_start : reachable c0 c0
| reach_step c c' : reachable c0 c -> step c c' -> reachable c0 c'.

(** Every goroutine at the start of a call of [readFileCached]. *)
Definition initial (w0 : World) (ids : list string) : config :=
  mkConfig w0 (map (fun id => mkThread id [] (Running (readFileCached id))) ids).

(** A complete run of a program: the calls with what they returned, and the
    value. *)
Inductive runsTo {A : Type} : Prog A -> list event -> A -> Prop :=
| runs_ret a : runsTo (Ret a) [] a
| runs_vis R (c : call R) k r tr a :
    runsTo (k r) tr a -> runsTo (Vis c k) (Ev c r :: tr) a.

(** The Source Reader returned [data] for [id] in the course of [evs]. *)
Definition fetched (id : string) (evs : list event) (data : string) : Prop :=
  exists pre tr post,
    evs = (pre ++ tr ++ post)%list /\ runsTo (readFile id) tr (data, None).

(** A path of the form [CacheDirectory/CacheKey]. *)
Definition isCachePath (path : string) : Prop :=
  exists cacheDir id, path = filepathJoin cacheDir (cacheKeyOf id).

End Conc.

(** ** What holds of the calls that run at the same time *)

Module ConcInv.
Import Go Sys Load OS Conc.

(** The cache path of a call with identifier [id] that resolved [cacheDir]. *)
Definition pathIn (cacheDir id : string) : string :=
  filepathJoin cacheDir (cacheKeyOf id).

(** What is left of [populate] after the temporary file is written. *)
Definition renameThen (tmp cachePath data : string) : Prog Res :=
  Vis (Rename tmp cachePath) (fun rerr => Ret (data, rerr)).

(** The goroutine is at a [WriteFile] of [populate]: the name is the
    temporary name for a UUID it drew, the data is what its Source Reader
    returned, and the rename follows. *)
Definition atWrite (id : string) (evs : list event) (name data : string)
    (k : option error -> Prog Res) : Prop :=
  exists cacheDir u,
    name = tmpFilenameOf (pathIn cacheDir id) u /\
    drew u evs /\ String.length u = 36%nat /\
    fetched id evs data /\
    (forall e, k (Some e) = Ret ("", Some e)) /\
    k None = renameThen name (pathIn cacheDir id) data.

(** What holds of a program of a goroutine whatever the calls return: it
    writes as [atWrite] says only, and renames after such a write only. *)
Fixpoint tok (id : string) (evs : list event) (p : Prog Res) : Prop :=
  match p with
  | Ret _ => True
  | Vis c k =>
      let next r := tok id (evs ++ [Ev c r]) (k r) in
      match c in call R return (R -> Prog Res) -> (R -> Prop) -> Prop with
      | WriteFile name data perm => fun k _ => atWrite id evs name data k
      | Rename _ _ => fun _ _ => False
      | UuidNewString => fun _ next => forall u, String.length u = 36%nat -> next u
      | _ => fun _ next => forall r, next r
      end k next
  end.

(** The goroutine is at the [Rename] of [populate], and the temporary file
    holds the data. *)
Definition atRename (w : World) (id : string) (evs : list event)
    (oldpath newpath : string) (k : option error -> Prog Res) : Prop :=
  exists cacheDir u data,
    oldpath = tmpFilenameOf (pathIn cacheDir id) u /\
    newpath = pathIn cacheDir id /\
    drew u evs /\ String.length u = 36%nat /\
    fetched id evs data /\
    files w !! oldpath = Some data /\
    (forall rerr, k rerr = Ret (data, rerr)).

(** What holds of a goroutine in a world. *)
Definition tinv (w : World) (t : thread) : Prop :=
  match st t with
  | Running (Ret _) => True
  | Running (Vis c k) =>
      match c in call R return (R -> Prog Res) -> Prop with
      | Rename oldpath newpath => fun k => atRename w (ident t) (evs t) oldpath newpath k
      | c' => fun k => tok (ident t) (evs t) (Vis c' k)
      end k
  | Writing name data rest perm k =>
      atWrite (ident t) (evs t) name data k /\
      exists written, files w !! name = Some written /\ written ++ rest = data
  end.

(** The temporary file a goroutine is writing or is about to rename. *)
Definition tmpOf (t : thread) : option string :=
  match st t with
  | Running (Vis c _) =>
      match c with
      | Rename oldpath _ => Some oldpath
      | _ => None
      end
  | Running (Ret _) => None
  | Writing name _ _ _ _ => Some name
  end.

(** The invariant of the cache, from the files [files0] at the start, for
    calls with the identifiers [ids]. *)
Record Inv (files0 : gmap string string) (ids : list string) (c : config)
    : Prop := mkInv {
  inv_cache : forall path data,
    isCachePath path -> files (world c) !! path = Some data ->
    files0 !! path = Some data \/
    exists i t cacheDir,
      pool c !! i = Some t /\ path = pathIn cacheDir (ident t) /\
      fetched (ident t) (evs t) data;
  inv_threads : forall i t, pool c !! i = Some t -> tinv (world c) t;
  inv_idents : forall i t, pool c !! i = Some t -> ids !! i = Some (ident t);
  inv_uuids : forall i j ti tj u,
    pool c !! i = Some ti -> pool c !! j = Some tj ->
    drew u (evs ti) -> drew u (evs tj) -> i = j;
}.

(** A program that writes no file and renames none. *)
Fixpoint harmless {A : Type} (p : Prog A) : Prop :=
  match p with
  | Ret _ => True
  | Vis c k =>
      match c with
      | WriteFile _ _ _ | Rename _ _ | UuidNewString => False
      | _ => forall r, harmless (k r)
      end
  end.

(** The last byte of a string. *)
Fixpoint lastByte (s : string) : option ascii :=
  match s with
  | EmptyString => None
  | String c EmptyString => Some c
  | String _ s' => lastByte s'
  end.

(** Lower-case hexadecimal digits. *)
Definition isHex (c : ascii) : bool :=
  let n := byteZ c in ((48 <=? n) && (n <=? 57)) || ((97 <=? n) && (n <=? 102)).

End ConcInv.

(** ** Schedules: runs of the goroutines that can be computed *)

Module Sched.
Import Go Sys Load OS Conc.

(** One step of goroutine [i], chosen by the schedule: a call that is one
    step, a UUID that is drawn, the temporary file opened, [n] bytes written
    to it, the write finished. *)
Inductive move : Type :=
| Call (i : nat)
| Draw (i : nat) (u : string)
| OpenTmp (i : nat)
| WriteBytes (i n : nat)
| WriteDone (i : nat).

Definition drewb (u : string) (evs : list event) : bool :=
  existsb (fun e => match uuidOf e with
                    | Some u' => String.eqb u' u
                    | None => false
                    end) evs.

Definition freshb (u : string) (ts : list thread) : bool :=
  forallb (fun t => negb (drewb u (evs t))) ts.

(** The first [n] bytes of a string and the rest. *)
Fixpoint splitAt (n : nat) (s : string) : string * string :=
  match n, s with
  | S n', String c s' => let '(a, b) := splitAt n' s' in (String c a, b)
  | _, _ => (EmptyString, s)
  end.

Definition setThread (i : nat) (t : thread) (w : World) (ts : list thread) : config :=
  mkConfig w (<[i := t]> ts).

(** The configuration after a move, when the goroutine can make it. *)
Definition advance (c : config) (m : move) : option config :=
  let w := world c in
  let ts := pool c in
  match m with
  | Call i =>
      match ts !! i with
      | Some (mkThread id evs (Running (Vis cl k))) =>
          if atomic cl then
            Some (setThread i (mkThread id (evs ++ [Ev cl (fst (perform cl w))])
                                        (Running (k (fst (perform cl w)))))
                            (snd (perform cl w)) ts)
          else None
      | _ => None
      end
  | Draw i u =>
      match ts !! i with
      | Some (mkThread id evs (Running (Vis cl k))) =>
          match cl in call R return (R -> Prog Res) -> option config with
          | UuidNewString => fun k =>
              if (String.length u =? 36)%nat && freshb u ts then
                Some (setThread i (mkThread id (evs ++ [Ev UuidNewString u]) (Running (k u)))
                                w ts)
              else None
          | _ => fun _ => None
          end k
      | _ => None
      end
  | OpenTmp i =>
      match ts !! i with
      | Some (mkThread id evs (Running (Vis cl k))) =>
          match cl in call R return (R -> Prog Res) -> option config with
          | WriteFile name data perm => fun k =>
              Some (setThread i (mkThread id evs (Writing name data data perm k))
                              (setFiles (<[name := ""]> (files w)) w) ts)
          | _ => fun _ => None
          end k
      | _ => None
      end
  | WriteBytes i n =>
      match ts !! i with
      | Some (mkThread id evs (Writing name data rest perm k)) =>
          let '(chunk, rest') := splitAt n rest in
          Some (setThread i (mkThread id evs (Writing name data rest' perm k))
                          (setFiles (writeThrough w name
                                       (String.length data - String.length rest) chunk) w)
                          ts)
      | _ => None
      end
  | WriteDone i =>
      match ts !! i with
      | Some (mkThread id evs (Writing name data EmptyString perm k)) =>
          Some (setThread i (mkThread id (evs ++ [Ev (WriteFile name data perm) None])
                                      (Running (k None)))
                          w ts)
      | _ => None
      end
  end.

(** The configuration after the moves of a schedule. *)
Fixpoint play (c : config) (ms : list move) : option config :=
  match ms with
  | [] => Some c
  | m :: ms' =>
      match advance c m with
      | Some c' => play c' ms'
      | None => None
      end
  end.

End Sched.

(** ** Worlds for the examples *)

Module Worlds.
Import Go Sys OS.

Definition aUuid : string := "6ba7b810-9dad-41d1-80b4-00c04fd430c8".

(** No file, and a server that answers every request with a 404 page. *)
Definition world404 : World :=
  mkWorld ∅ "/tmp" ∅ (fun _ => inl (404, "404 page not found")) []
          (fun _ => aUuid) 0 (fun _ _ => None) None.

(** One rank file on disk, no network, no cache yet, and a rename that fails
    where [renameFails] says so. *)
Definition diskWorld (renameFails : bool) : World :=
  mkWorld ∅ "/tmp" {["/data/cl100k.tiktoken" := "QUJD 1"]}
          (fun url => inr (URLError "Get" url "no such host")) []
          (fun _ => aUuid) 0
          (fun _ c => match c with
                      | Rename _ _ =>
                          if renameFails
                          then Some (OSError "rename" "" "permission denied")
                          else None
                      | _ => None
                      end)
          None.

(** The cache entry of /data/cl100k.tiktoken and nothing else. *)
Definition cachedWorld : World :=
  mkWorld ∅ "/tmp"
          {["/tmp/data-gym-cache/787ec68696af9df78cb60f4e9341b3128838ab93" := "QUJD 1"]}
          (fun url => inr (URLError "Get" url "no such host")) []
          (fun _ => aUuid) 0 (fun _ _ => None) None.

(** The override of the cache directory set to the empty string. *)
Definition emptyOverrideWorld : World :=
  mkWorld {["TIKTOKEN_CACHE_DIR" := ""]} "/tmp" {["/data/cl100k.tiktoken" := "QUJD 1"]}
          (fun url => inr (URLError "Get" url "no such host")) []
          (fun _ => aUuid) 0 (fun _ _ => None) None.

Definition otherUuid : string := "7d444840-9dc0-41d1-b245-5ffdce74fad2".

End Worlds.

(** ** Two calls for one identifier *)

Module Run.
Import Go Sys Load OS Conc Worlds.

Definition twoCalls : config :=
  initial (diskWorld false) ["/data/cl100k.tiktoken"; "/data/cl100k.tiktoken"].

Definition twoCallsPath : string :=
  "/tmp/data-gym-cache/787ec68696af9df78cb60f4e9341b3128838ab93".

(** The first call up to the middle of its write, then the second call,
    all of it. *)
Definition twoCallsSchedule : list Sched.move :=
  let first := 0%nat in
  let second := 1%nat in
  (repeat (Sched.Call first) 8
   ++ [Sched.Draw first aUuid; Sched.OpenTmp first; Sched.WriteBytes first 3]
   ++ repeat (Sched.Call second) 8
   ++ [Sched.Draw second otherUuid; Sched.OpenTmp second; Sched.WriteBytes second 6;
       Sched.WriteDone second; Sched.Call second])%list.

End Run.

(** ** More words for the statements and more worlds *)

Module More.
Import Go Sys Load OS Worlds.

Definition isRename (e : event) : bool :=
  match e with
  | Ev (Rename _ _) _ => true
  | _ => false
  end.

(** The temporary name a call makes in a world for a cache path: that of
    the next UUID. *)
Definition tmpNameIn (w : World) (cachePath : string) : string :=
  tmpFilenameOf cachePath (uuids w (uuidCount w)).

Definition denied (op : string) : error := OSError op "" "permission denied".

(** A world with the files [fs], no network, and the faults [flt]. *)
Definition worldWith (fs : gmap string string)
    (flt : forall R : Type, call R -> option error) (sh : option nat) : World :=
  mkWorld ∅ "/tmp" fs (fun url => inr (URLError "Get" url "no such host")) []
          (fun _ => aUuid) 0 flt sh.

Definition rankFile : gmap string string := {["/data/cl100k.tiktoken" := "QUJD 1"]}.

Definition staleCache : gmap string string :=
  {["/data/cl100k.tiktoken" := "QUJD 1";
    "/tmp/data-gym-cache/787ec68696af9df78cb60f4e9341b3128838ab93" := "QUJD 0"]}.

Definition writeFails : forall R : Type, call R -> option error :=
  fun _ c => match c with
             | WriteFile _ _ _ => Some (denied "write")
             | _ => None
             end.

Definition statFails : forall R : Type, call R -> option error :=
  fun _ c => match c with
             | Stat _ => Some (denied "stat")
             | _ => None
             end.

Definition readFileFails : forall R : Type, call R -> option error :=
  fun _ c => match c with
             | ReadFile _ => Some (denied "read")
             | _ => None
             end.

(** The two calls up to the rename of the second, and one more write of
    the first after that rename. *)
Definition twoCallsBeforeRename : list Sched.move :=
  removelast Run.twoCallsSchedule.

Definition twoCallsOneMore : Sched.move := Sched.WriteBytes 0 2.

End More.

(** * Properties *)

(** ** The models of the library functions on known values *)

Example sha1_abc : Go.hexOf (Go.sha1Sum "abc") = "a9993e364706816aba3e25717850c26c9cd0d89d".
Proof. vm_compute. reflexivity. Qed.
Example sha1_empty : Go.hexOf (Go.sha1Sum "") = "da39a3ee5e6b4b0d3255bfef95601890afd80709".
Proof. vm_compute. reflexivity. Qed.
Example sha1_long : Go.hexOf (Go.sha1Sum "abcdbcdecdefdefgefghfghighijhijkijkljklmklmnlmnomnopnopq") = "84983e441c3bd26ebaae4aa1f95129e5e54670f1".
Proof. vm_compute. reflexivity. Qed.
Example clean1 : Go.Clean "/tmp//a/../b/./c/" = "/tmp/b/c". Proof. vm_compute. reflexivity. Qed.
Example clean2 : Go.Clean "../../a/../../b" = "../../../b". Proof. vm_compute. reflexivity. Qed.
Example clean3 : Go.Clean "/../a" = "/a". Proof. vm_compute. reflexivity. Qed.
Example clean4 : Go.Clean "a/.." = ".". Proof. vm_compute. reflexivity. Qed.
Example clean5 : Go.Clean "/" = "/". Proof. vm_compute. reflexivity. Qed.
Example join1 : Go.filepathJoin "/tmp" "data-gym-cache" = "/tmp/data-gym-cache". Proof. vm_compute. reflexivity. Qed.
Example join2 : Go.filepathJoin "" "data-gym-cache" = "data-gym-cache". Proof. vm_compute. reflexivity. Qed.
Example split_ex1 : Go.Split "a b c" " "%char = ["a"; "b"; "c"].
Proof. reflexivity. Qed.
Example split_ex2 : Go.Split "" " "%char = [""].
Proof. reflexivity. Qed.
Example split_ex3 : Go.Split "a  " " "%char = ["a"; ""; ""].
Proof. reflexivity. Qed.
Example b64_ex1 : Go.DecodeString "QUJD" = ("ABC", None).
Proof. vm_compute. reflexivity. Qed.
Example b64_ex2 : Go.DecodeString "QQ==" = ("A", None).
Proof. vm_compute. reflexivity. Qed.
Example b64_ex3 : Go.DecodeString "QUI=" = ("AB", None).
Proof. vm_compute. reflexivity. Qed.
Example b64_ex4 : Go.DecodeString "QUI" = ("", Some (Go.CorruptInputError 0)).
Proof. vm_compute. reflexivity. Qed.
Example b64_ex5 : Go.DecodeString "Q!JD" = ("", Some (Go.CorruptInputError 1)).
Proof. vm_compute. reflexivity. Qed.
Example atoi_ex1 : Go.Atoi "-12" = (-12, None).
Proof. vm_compute. reflexivity. Qed.
Example atoi_ex2 : Go.Atoi "9223372036854775807" = (9223372036854775807, None).
Proof. vm_compute. reflexivity. Qed.
Example atoi_ex3 : Go.Atoi "9223372036854775808" = (9223372036854775807, Some (Go.NumError "Atoi" "9223372036854775808" Go.ErrRange)).
Proof. vm_compute. reflexivity. Qed.
Example atoi_ex4 : Go.Atoi "-9223372036854775808" = (-9223372036854775808, None).
Proof. vm_compute. reflexivity. Qed.

(** ** Facts about the library functions *)

Section GoFacts.
Import Go Spec.

Lemma Split_nonempty s sep : Split s sep <> [].
Proof.
  destruct s as [|c s]; simpl; [discriminate|].
  destruct (Ascii.eqb c sep); [discriminate|].
  destruct (Split s sep); discriminate.
Qed.

Lemma Split_allBytes p s sep :
  allBytes p s = true -> Forall (fun w => allBytes p w = true) (Split s sep).
Proof.
  induction s as [|c s IH]; simpl; intros H.
  - constructor; [reflexivity|constructor].
  - apply andb_true_iff in H as [Hc Hs]. specialize (IH Hs).
    destruct (Ascii.eqb c sep).
    + constructor; [reflexivity|exact IH].
    + destruct (Split s sep) as [|w ws].
      * constructor; [simpl; rewrite Hc; reflexivity|constructor].
      * inversion IH; subst. constructor; [simpl; rewrite Hc; assumption|assumption].
Qed.

Lemma isDigit_range c : isDigit c = true -> 0 <= byteZ c - 48 <= 9.
Proof. unfold isDigit. intros H. apply andb_true_iff in H as [H1 H2]. lia. Qed.

Lemma atoiDigits_digits s : forall n v,
  atoiDigits s n = Some v -> allBytes isDigit s = true.
Proof.
  induction s as [|c s IH]; simpl; intros n v H; [reflexivity|].
  destruct (isDigit c); [|discriminate]. simpl. eauto.
Qed.

Lemma atoiDigits_bound s : forall n v,
  0 <= n -> atoiDigits s n = Some v ->
  0 <= v < (n + 1) * 10 ^ Z.of_nat (String.length s).
Proof.
  induction s as [|c s IH]; intros n v Hn H.
  - simpl in H. injection H as <-. simpl. lia.
  - cbn [atoiDigits] in H. destruct (isDigit c) eqn:Hd; [|discriminate].
    apply isDigit_range in Hd.
    apply IH in H; [|lia].
    cbn [String.length]. rewrite Nat2Z.inj_succ, Z.pow_succ_r by lia.
    assert (0 < 10 ^ Z.of_nat (String.length s)) by (apply Z.pow_pos_nonneg; lia).
    nia.
Qed.

Lemma parseUintDigits_digits s : forall n v,
  parseUintDigits s n = inl v -> allBytes isDigit s = true.
Proof.
  induction s as [|c s IH]; simpl; intros n v H; [reflexivity|].
  destruct (isDigit c); simpl in *; [|discriminate].
  destruct (_ <=? n); [discriminate|].
  destruct (_ <? _); [discriminate|]. eauto.
Qed.

Lemma parseUintDigits_nonneg s : forall n v,
  0 <= n -> parseUintDigits s n = inl v -> 0 <= v.
Proof.
  induction s as [|c s IH]; simpl; intros n v Hn H.
  - injection H as <-. exact Hn.
  - destruct (isDigit c) eqn:Hd; simpl in *; [|discriminate].
    apply isDigit_range in Hd.
    destruct (_ <=? n); [discriminate|].
    destruct (_ <? _); [discriminate|].
    apply IH in H; lia.
Qed.

Lemma isSign_minus c : isSign c = false -> Ascii.eqb c "-"%char = false.
Proof. unfold isSign. intros H. apply orb_false_iff in H as [H _]. exact H. Qed.

Lemma nonEmpty_length s : (String.length s <? 1)%nat = false -> nonEmpty s = true.
Proof. destruct s; [discriminate|reflexivity]. Qed.

(** When [Atoi] succeeds, its argument is a signed decimal integer and the
    value is in the range of [int]. *)
Lemma Atoi_ok s n :
  Atoi s = (n, None) -> signedDecimal s = true /\ minInt <= n <= maxInt.
Proof.
  unfold Atoi, minInt, maxInt.
  destruct ((0 <? Z.of_nat (String.length s)) && (Z.of_nat (String.length s) <? 19)) eqn:Hfast.
  - apply andb_true_iff in Hfast as [_ Hlen]. apply Z.ltb_lt in Hlen.
    destruct s as [|c0 s1]; [discriminate|].
    cbn [signedDecimal]. destruct (isSign c0) eqn:Hs; cbn [andb].
    + destruct (String.length s1 <? 1)%nat eqn:Hl; [discriminate|].
      destruct (atoiDigits s1 0) as [v|] eqn:Hv; [|discriminate].
      intros [= <-]. split.
      * rewrite (nonEmpty_length _ Hl), (atoiDigits_digits _ _ _ Hv). reflexivity.
      * apply atoiDigits_bound in Hv; [|lia].
        cbn [String.length] in Hlen.
        assert (10 ^ Z.of_nat (String.length s1) <= 10 ^ 17)
          by (apply Z.pow_le_mono_r; lia).
        destruct (Ascii.eqb c0 "-"); lia.
    + destruct (atoiDigits (String c0 s1) 0) as [v|] eqn:Hv; [|discriminate].
      rewrite (isSign_minus _ Hs). intros [= <-]. split.
      * exact (atoiDigits_digits _ _ _ Hv).
      * apply atoiDigits_bound in Hv; [|lia].
        assert (10 ^ Z.of_nat (String.length (String c0 s1)) <= 10 ^ 18)
          by (apply Z.pow_le_mono_r; lia).
        lia.
  - clear Hfast. unfold ParseInt10.
    destruct s as [|c0 s1]; [discriminate|].
    cbn [signedDecimal].
    destruct (isSign c0) eqn:Hs.
    + unfold ParseUint10. destruct s1 as [|c1 s2]; [discriminate|].
      destruct (parseUintDigits (String c1 s2) 0) as [un|[]] eqn:Hu;
        try discriminate.
      2:{ destruct (Ascii.eqb c0 "-"); discriminate. }
      destruct (Ascii.eqb c0 "-"); cbn [negb andb].
      * destruct (2 ^ 63 <? un) eqn:Hc; [discriminate|].
        intros [= <-]. apply Z.ltb_ge in Hc. split.
        -- cbn [nonEmpty andb]. exact (parseUintDigits_digits _ _ _ Hu).
        -- apply parseUintDigits_nonneg in Hu; lia.
      * destruct (2 ^ 63 <=? un) eqn:Hc; [discriminate|].
        intros [= <-]. apply Z.leb_gt in Hc. split.
        -- cbn [nonEmpty andb]. exact (parseUintDigits_digits _ _ _ Hu).
        -- apply parseUintDigits_nonneg in Hu; lia.
    + rewrite (isSign_minus _ Hs). cbn [negb andb].
      unfold ParseUint10.
      destruct (parseUintDigits (String c0 s1) 0) as [un|[]] eqn:Hu;
        try discriminate.
      destruct (2 ^ 63 <=? un) eqn:Hc; [discriminate|].
      intros [= <-]. apply Z.leb_gt in Hc. split.
      * exact (parseUintDigits_digits _ _ _ Hu).
      * apply parseUintDigits_nonneg in Hu; lia.
Qed.

End GoFacts.

(** ** The rank-table parser *)

Section Parser.
Import Go Spec Load.

Lemma whitespace_not_decimal s :
  whitespaceOnly s = true -> signedDecimal s = false.
Proof.
  destruct s as [|c s]; [reflexivity|].
  unfold whitespaceOnly. cbn [allBytes signedDecimal]. intros H.
  apply andb_true_iff in H as [Hc _].
  assert (Hsign : isSign c = false).
  { destruct (isSign c) eqn:Hs; [|reflexivity].
    unfold isSign in Hs. apply orb_true_iff in Hs as [Hs|Hs];
      apply Ascii.eqb_eq in Hs; subst c; discriminate. }
  rewrite Hsign.
  assert (Hdig : isDigit c = false).
  { unfold isSpace in Hc. unfold isDigit.
    destruct ((48 <=? byteZ c) && (byteZ c <=? 57)) eqn:Hd; [|reflexivity].
    apply andb_true_iff in Hd as [H1 H2].
    apply orb_true_iff in Hc as [Hc|Hc]; [apply andb_true_iff in Hc as [H3 H4]|]; lia. }
  rewrite Hdig. reflexivity.
Qed.

(** A line that is kept came with a second field that [Atoi] took. *)
Lemma loadLine_kept bpeRanks line bpeRanks' :
  loadLine bpeRanks line = inl bpeRanks' ->
  line = "" /\ bpeRanks' = bpeRanks \/
  exists part0 part1 rest token rank,
    Split line " "%char = part0 :: part1 :: rest /\
    DecodeString part0 = (token, None) /\
    Atoi part1 = (rank, None) /\
    bpeRanks' = <[token := rank]> bpeRanks.
Proof.
  unfold loadLine. destruct (String.eqb line "") eqn:He.
  - apply String.eqb_eq in He. intros [= <-]. left. split; [assumption|reflexivity].
  - intros H. right. unfold index in H.
    destruct (Split line " ") as [|part0 [|part1 rest]] eqn:Hs; cbn in H.
    + discriminate.
    + destruct (DecodeString part0) as [token [e|]]; discriminate.
    + destruct (DecodeString part0) as [token [e|]] eqn:Hd; [discriminate|].
      destruct (Atoi part1) as [rank [e|]] eqn:Ha; [discriminate|].
      injection H as <-. exists part0, part1, rest, token, rank. auto.
Qed.

(** The loop stops with an error or a panic only. *)
Lemma loadLine_stop bpeRanks line r :
  loadLine bpeRanks line = inr r -> forall m, r <> Ranks m.
Proof.
  intros Hl m ->. unfold loadLine in Hl. revert Hl.
  destruct (String.eqb line ""); [discriminate|].
  destruct (index _ 0); [|discriminate].
  destruct (DecodeString _) as [? [?|]]; [discriminate|].
  destruct (index _ 1); [|discriminate].
  destruct (Atoi _) as [? [?|]]; discriminate.
Qed.

(** The two loops are the same function. *)
Lemma loadLineFS_eq bpeRanks line : loadLineFS bpeRanks line = loadLine bpeRanks line.
Proof. reflexivity. Qed.

Lemma loadLinesFS_eq lines : forall bpeRanks,
  loadLinesFS lines bpeRanks = loadLines lines bpeRanks.
Proof.
  induction lines as [|l ls IH]; intros m; simpl; [reflexivity|].
  rewrite loadLineFS_eq. destruct (loadLine m l); [apply IH|reflexivity].
Qed.

Lemma parseBpeFS_eq contents : parseBpeFS contents = parseBpe contents.
Proof. apply loadLinesFS_eq. Qed.

(** Ranks stay in the range of [int], and kept lines have a signed decimal
    second field. *)
Lemma loadLines_ranks lines : forall bpeRanks m,
  (forall tok r, bpeRanks !! tok = Some r -> minInt <= r <= maxInt) ->
  loadLines lines bpeRanks = Ranks m ->
  (forall tok r, m !! tok = Some r -> minInt <= r <= maxInt) /\
  (forall line, In line lines -> line <> "" ->
     exists part0 part1 rest,
       Split line " "%char = part0 :: part1 :: rest /\ signedDecimal part1 = true).
Proof.
  induction lines as [|l ls IH]; intros m0 m Hm0 H; simpl in H.
  - injection H as <-. split; [exact Hm0|intros line []].
  - destruct (loadLine m0 l) as [m1|r] eqn:Hl.
    2:{ subst r. exfalso. exact (loadLine_stop _ _ _ Hl m eq_refl). }
    apply loadLine_kept in Hl.
    assert (Hm1 : forall tok r, m1 !! tok = Some r -> minInt <= r <= maxInt).
    { destruct Hl as [[_ ->]|(p0 & p1 & rest & token & rank & _ & _ & Ha & ->)];
        [exact Hm0|].
      intros tok r. rewrite lookup_insert. destruct (decide (token = tok)).
      - intros [= <-]. apply Atoi_ok in Ha. tauto.
      - apply Hm0. }
    destruct (IH m1 m Hm1 H) as [Hr Hk]. split; [exact Hr|].
    intros line [<-|Hin] Hne; [|exact (Hk line Hin Hne)].
    destruct Hl as [[-> _]|(p0 & p1 & rest & token & rank & Hs & _ & Ha & _)];
      [contradiction|].
    exists p0, p1, rest. split; [exact Hs|]. apply Atoi_ok in Ha. tauto.
Qed.

(** A line of white space only ends the loop without a table. *)
Lemma loadLine_whitespace bpeRanks line :
  line <> "" -> whitespaceOnly line = true ->
  exists r, loadLine bpeRanks line = inr r /\ forall m, r <> Ranks m.
Proof.
  intros Hne Hws.
  destruct (loadLine bpeRanks line) as [m'|r] eqn:Hl.
  - apply loadLine_kept in Hl as [[-> _]|(p0 & p1 & rest & token & rank & Hs & _ & Ha & _)];
      [contradiction|].
    pose proof (Split_allBytes isSpace line " "%char Hws) as Hall.
    rewrite Hs in Hall. inversion Hall as [|? ? _ Hall']; subst.
    inversion Hall' as [|? ? Hp1 _]; subst.
    apply Atoi_ok in Ha as [Hd _].
    rewrite (whitespace_not_decimal p1 Hp1) in Hd. discriminate.
  - exists r. split; [reflexivity|]. exact (loadLine_stop _ _ _ Hl).
Qed.

Lemma loadLines_whitespace lines : forall bpeRanks line,
  In line lines -> line <> "" -> whitespaceOnly line = true ->
  forall m, loadLines lines bpeRanks <> Ranks m.
Proof.
  induction lines as [|l ls IH]; intros m0 line Hin Hne Hws m; [destruct Hin|].
  simpl. destruct Hin as [->|Hin].
  - destruct (loadLine_whitespace m0 line Hne Hws) as (r & -> & Hr). apply Hr.
  - destruct (loadLine m0 l) as [m1|r] eqn:Hl; [exact (IH m1 line Hin Hne Hws m)|].
    exact (loadLine_stop _ _ _ Hl m).
Qed.

End Parser.

(** ** The cache store and the source reader *)

Section Sequential.
Import Go Sys Load OS Spec Cache.

Lemma run_bind {A B : Type} (p : Prog A) (f : A -> Prog B) : forall w,
  run (bind p f) w =
  let '(a, w1, t1) := run p w in
  let '(b, w2, t2) := run (f a) w1 in
  (b, w2, (t1 ++ t2)%list).
Proof.
  induction p as [a|R c k IH]; intros w; cbn [bind run].
  - destruct (run (f a) w) as [[b w2] t2]. reflexivity.
  - destruct (perform c w) as [r w']. rewrite IH.
    destruct (run (k r) w') as [[a w1] t1].
    destruct (run (f a) w1) as [[b w2] t2]. reflexivity.
Qed.

Lemma cacheDirOf_eq w :
  cacheDirOf w =
  if negb (String.eqb (getenv w "TIKTOKEN_CACHE_DIR") "") then getenv w "TIKTOKEN_CACHE_DIR"
  else if negb (String.eqb (getenv w "DATA_GYM_CACHE_DIR") "") then getenv w "DATA_GYM_CACHE_DIR"
  else filepathJoin (tempDir w) "data-gym-cache".
Proof.
  unfold cacheDirOf, resolveCacheDir, value, getenv. cbn [bind trigger run perform].
  destruct (negb (String.eqb (default "" (env w !! "TIKTOKEN_CACHE_DIR")) "")); [reflexivity|].
  cbn [bind trigger run perform].
  destruct (negb (String.eqb (default "" (env w !! "DATA_GYM_CACHE_DIR")) "")); reflexivity.
Qed.

Lemma run_resolveCacheDir w :
  exists tr, run resolveCacheDir w = (cacheDirOf w, w, tr) /\ quiet tr.
Proof.
  unfold cacheDirOf, resolveCacheDir, value, quiet. cbn [bind trigger run perform].
  destruct (negb (String.eqb (default "" (env w !! "TIKTOKEN_CACHE_DIR")) "")).
  - eexists. split; [reflexivity|]. repeat constructor.
  - cbn [bind trigger run perform].
    destruct (negb (String.eqb (default "" (env w !! "DATA_GYM_CACHE_DIR")) "")).
    + eexists. split; [reflexivity|]. repeat constructor.
    + eexists. split; [reflexivity|]. repeat constructor.
Qed.

Lemma Clean_nonempty path : Clean path <> "".
Proof.
  unfold Clean. destruct path as [|c p]; [discriminate|].
  destruct (Ascii.eqb c Separator); [discriminate|].
  destruct (String.eqb _ "") eqn:He; [discriminate|].
  intros H. rewrite H in He. discriminate.
Qed.

Lemma filepathJoin_nonempty a b : b <> "" -> filepathJoin a b <> "".
Proof.
  intros Hb. unfold filepathJoin.
  destruct (String.eqb a ""); cbn [negb]; [|apply Clean_nonempty].
  destruct (String.eqb b "") eqn:He; cbn [negb]; [|apply Clean_nonempty].
  apply String.eqb_eq in He. contradiction.
Qed.

Lemma cacheDirOf_nonempty w : cacheDirOf w <> "".
Proof.
  rewrite cacheDirOf_eq.
  destruct (String.eqb (getenv w "TIKTOKEN_CACHE_DIR") "") eqn:H1; cbn [negb].
  2:{ intros H. rewrite H in H1. discriminate. }
  destruct (String.eqb (getenv w "DATA_GYM_CACHE_DIR") "") eqn:H2; cbn [negb].
  2:{ intros H. rewrite H in H2. discriminate. }
  apply filepathJoin_nonempty. discriminate.
Qed.

Lemma run_readFileCached w blobpath :
  exists tr0, quiet tr0 /\
  run (readFileCached blobpath) w =
  let '(r, w', tr) := run (readFileCachedIn (cacheDirOf w) blobpath) w in
  (r, w', (tr0 ++ tr)%list).
Proof.
  destruct (run_resolveCacheDir w) as (tr0 & Hr & Hq).
  exists tr0. split; [exact Hq|].
  unfold readFileCached. rewrite run_bind, Hr. reflexivity.
Qed.

Lemma sameButHandles_refl w : sameButHandles w w.
Proof. repeat split. Qed.

Lemma sameButHandles_push data w : sameButHandles w (pushHandle data w).
Proof. repeat split. Qed.

Lemma lookup_pushHandle data w :
  handles (pushHandle data w) !! length (handles w) = Some data.
Proof. cbn [pushHandle handles]. apply list_lookup_middle. reflexivity. Qed.

Lemma run_readFile_http url w :
  isHTTP url = true ->
  run (readFile url) w =
  match net w url with
  | inr e => (("", Some e), w, [Ev (HttpGet url) (inr e)])
  | inl (status, body) =>
      let f := length (handles w) in
      (readAllOf w f body, pushHandle body w,
       [Ev (HttpGet url) (inl {| StatusCode := status; Body := f |});
        Ev (ReadAll f) (readAllOf w f body);
        Ev (Close f) (fault w _ (Close f))])
  end.
Proof.
  unfold isHTTP, readFile. intros H.
  destruct (HasPrefix url "http://"), (HasPrefix url "https://");
    try discriminate; cbn [negb andb bind trigger run perform];
    (destruct (net w url) as [[status body]|e]; [|reflexivity]);
    cbn [bind trigger run perform Body]; rewrite lookup_pushHandle;
    unfold readAllOf; change (fault (pushHandle body w)) with (fault w);
    change (readShort (pushHandle body w)) with (readShort w);
    destruct (fault w _ (ReadAll _)); reflexivity.
Qed.

Lemma run_readFile_local blobpath w :
  isHTTP blobpath = false ->
  run (readFile blobpath) w =
  match fault w _ (Open blobpath), files w !! blobpath with
  | Some e, _ => (("", Some e), w, [Ev (Open blobpath) (inr e)])
  | None, None =>
      (("", Some (notExist "open" blobpath)), w,
       [Ev (Open blobpath) (inr (notExist "open" blobpath))])
  | None, Some data =>
      let f := length (handles w) in
      (readAllOf w f data, pushHandle data w,
       [Ev (Open blobpath) (inl f);
        Ev (ReadAll f) (readAllOf w f data);
        Ev (Close f) (fault w _ (Close f))])
  end.
Proof.
  unfold isHTTP, readFile. intros H. apply orb_false_iff in H as [-> ->].
  cbn [negb andb bind trigger run perform].
  destruct (fault w _ (Open blobpath)); [reflexivity|].
  destruct (files w !! blobpath) as [data|]; [|reflexivity].
  cbn [bind trigger run perform]. rewrite lookup_pushHandle.
  unfold readAllOf. change (fault (pushHandle data w)) with (fault w).
  change (readShort (pushHandle data w)) with (readShort w).
  destruct (fault w _ (ReadAll _)); reflexivity.
Qed.

Lemma run_readFile_frame blobpath w : sameButHandles w (after (run (readFile blobpath) w)).
Proof.
  destruct (isHTTP blobpath) eqn:H.
  - rewrite (run_readFile_http _ _ H).
    destruct (net w blobpath) as [[status body]|e];
      [apply sameButHandles_push|apply sameButHandles_refl].
  - rewrite (run_readFile_local _ _ H).
    destruct (fault w _ (Open blobpath)); [apply sameButHandles_refl|].
    destruct (files w !! blobpath);
      [apply sameButHandles_push|apply sameButHandles_refl].
Qed.

Lemma cacheDirOf_same w w' :
  env w' = env w -> tempDir w' = tempDir w -> cacheDirOf w' = cacheDirOf w.
Proof. intros He Ht. rewrite !cacheDirOf_eq. unfold getenv. rewrite He, Ht. reflexivity. Qed.

(** [readFileCachedIn] when the cache has the file. *)
Lemma run_hit cacheDir blobpath w data :
  cacheDir <> "" ->
  files w !! filepathJoin cacheDir (cacheKeyOf blobpath) = Some data ->
  fault w _ (Stat (filepathJoin cacheDir (cacheKeyOf blobpath))) = None ->
  fault w _ (ReadFile (filepathJoin cacheDir (cacheKeyOf blobpath))) = None ->
  run (readFileCachedIn cacheDir blobpath) w =
  ((data, None), w,
   [Ev (Stat (filepathJoin cacheDir (cacheKeyOf blobpath))) None;
    Ev (ReadFile (filepathJoin cacheDir (cacheKeyOf blobpath))) (data, None)]).
Proof.
  intros Hd Hf Hs Hr. unfold readFileCachedIn.
  apply String.eqb_neq in Hd. rewrite Hd.
  cbn [bind trigger run perform]. rewrite Hs, Hf.
  cbn [bind trigger run perform]. rewrite Hf, Hr. reflexivity.
Qed.

(** [readFileCachedIn] when [os.Stat] reports an error: the value is that of
    [populate] after a fetch that succeeds, and the error of the fetch
    otherwise. *)
Lemma run_miss cacheDir blobpath w serr :
  cacheDir <> "" ->
  fst (perform (Stat (filepathJoin cacheDir (cacheKeyOf blobpath))) w) = Some serr ->
  let fetched := run (readFile blobpath) w in
  let filled := run (populate cacheDir (filepathJoin cacheDir (cacheKeyOf blobpath))
                       (fst (value fetched))) (after fetched) in
  value (run (readFileCachedIn cacheDir blobpath) w) =
    match snd (value fetched) with
    | Some e => ("", Some e)
    | None => value filled
    end /\
  after (run (readFileCachedIn cacheDir blobpath) w) =
    match snd (value fetched) with
    | Some e => after fetched
    | None => after filled
    end.
Proof.
  intros Hd Hs. cbv zeta. unfold readFileCachedIn.
  apply String.eqb_neq in Hd. rewrite Hd.
  cbn [bind run trigger].
  assert (Hw : snd (perform (Stat (filepathJoin cacheDir (cacheKeyOf blobpath))) w) = w).
  { cbn [perform]. destruct (fault w _ (Stat _)); [reflexivity|].
    destruct (files w !! _); reflexivity. }
  destruct (perform (Stat (filepathJoin cacheDir (cacheKeyOf blobpath))) w) as [r w0].
  cbn [fst snd] in Hs, Hw. subst r w0.
  rewrite run_bind.
  destruct (run (readFile blobpath) w) as [[[contents err] w1] t1].
  unfold value, after. cbn [fst snd].
  destruct err as [e|]; cbn [run].
  - split; reflexivity.
  - destruct (run (populate _ _ contents) w1) as [[b w2] t2]. split; reflexivity.
Qed.

(** [populate], by what [WriteFile] and [Rename] come to. *)
Lemma run_populate cacheDir cachePath contents w :
  let tmp := tmpFilenameOf cachePath (uuids w (uuidCount w)) in
  let x := run (populate cacheDir cachePath contents) w in
  match fault w _ (WriteFile tmp contents ModePerm) with
  | Some e => value x = ("", Some e)
  | None =>
      match fault w _ (Rename tmp cachePath) with
      | Some e => value x = (contents, Some e)
      | None => value x = (contents, None) /\ files (after x) !! cachePath = Some contents
      end
  end.
Proof.
  cbv zeta. unfold populate, value, after. cbn [bind trigger run perform].
  change (fault (nextUuid w)) with (fault w).
  destruct (fault w _ (WriteFile _ contents ModePerm)) as [e|]; [reflexivity|].
  cbn [bind trigger run perform fst snd].
  change (fault (setFiles _ (nextUuid w))) with (fault w).
  change (files (setFiles ?f _)) with f.
  destruct (fault w _ (Rename _ cachePath)) as [e|]; [reflexivity|].
  rewrite lookup_insert_eq. cbn [fst snd].
  change (files (setFiles ?f _)) with f.
  rewrite lookup_insert_eq. split; reflexivity.
Qed.

End Sequential.

(** ** The loader, one call at a time *)

Section Loader.
Import Go Sys Load OS Spec Cache Worlds.

(** C1 (the code departs from it).  A line that is one valid base64 field and
    nothing else is not reported as an error: both loaders index the second
    field of a one-field split and panic. *)
Theorem C1_one_field_line_panics :
  parseBpe "QUJD" = Panicked (IndexOutOfRange 1 1) /\
  parseBpeFS "QUJD" = Panicked (IndexOutOfRange 1 1) /\
  LoadTiktokenBpeFromFS NewDefaultBpeLoader
    {["cl100k.tiktoken" := EmbedFile "QUJD"]} "cl100k.tiktoken"
    = Panicked (IndexOutOfRange 1 1).
Proof. vm_compute. repeat split. Qed.

(** C3, as stated, fails: an answer with status 404 is no error for the
    reader, which returns its body. *)
Lemma C3_counterexample :
  ~ (forall (w : World) (url body : string) (status : Z),
       isHTTP url = true -> net w url = inl (status, body) ->
       ~ (200 <= status < 300) ->
       exists e, snd (value (run (readFile url) w)) = Some e).
Proof.
  intros H.
  destruct (H world404 "https://example.com/cl100k.tiktoken" "404 page not found" 404)
    as [e He]; [reflexivity|reflexivity|lia|].
  vm_compute in He. discriminate.
Qed.

(** C3, amended.  For an identifier that starts with http:// or https://
    the reader makes one GET request and opens no file; a transport failure
    is the error of the call; otherwise, whatever the status of the answer,
    the call returns what reading the whole body returns. *)
Theorem C3_reader_http (w : World) (url : string) :
  isHTTP url = true ->
  let x := run (readFile url) w in
  length (List.filter isGet (trace x)) = 1%nat /\
  length (List.filter isFetch (trace x)) = 1%nat /\
  match net w url with
  | inr e => value x = ("", Some e)
  | inl (status, body) =>
      value x = match fault w _ (ReadAll (length (handles w))) with
                | Some e => (readShort w body, Some e)
                | None => (body, None)
                end
  end.
Proof.
  intros H. cbv zeta. rewrite (run_readFile_http _ _ H).
  destruct (net w url) as [[status body]|e]; repeat split.
Qed.

(** C3 at a server that answers 404. *)
Lemma C3_reader_http_witness :
  isHTTP "https://example.com/cl100k.tiktoken" = true /\
  value (run (readFile "https://example.com/cl100k.tiktoken") world404)
    = ("404 page not found", None).
Proof.
  split; [reflexivity|].
  exact (proj2 (proj2 (C3_reader_http world404 "https://example.com/cl100k.tiktoken" eq_refl))).
Defined.

(** C4 (the code departs from it).  No environment makes the cache
    directory empty: for [os.Getenv] an override set to the empty string is
    like one that is not set, and the default is never empty.  So every
    call, in a world whose environment stays as it is during the call, goes
    to the cache: after the directory is resolved the first thing it does is
    the [os.Stat] of the cache path. *)
Theorem C4_cache_never_bypassed (w : World) (blobpath : string) :
  cacheDirOf w <> "" /\
  exists tr0 serr tr1,
    quiet tr0 /\
    trace (run (readFileCached blobpath) w)
      = (tr0 ++ Ev (Stat (cachePathOf w blobpath)) serr :: tr1)%list.
Proof.
  split; [apply cacheDirOf_nonempty|].
  destruct (run_readFileCached w blobpath) as (tr0 & Hq & ->).
  exists tr0. unfold readFileCachedIn.
  pose proof (cacheDirOf_nonempty w) as Hd. apply String.eqb_neq in Hd. rewrite Hd.
  cbn [bind run trigger]. fold (cachePathOf w blobpath).
  destruct (perform (Stat (cachePathOf w blobpath)) w) as [serr w1].
  match goal with |- context [run ?p w1] => destruct (run p w1) as [[r w2] tr1] end.
  exists serr, tr1. split; [exact Hq|reflexivity].
Qed.

(** The call in the world where the override is the empty string: the cache
    directory is the default one, and the call leaves a file in it. *)
Example empty_override_caches :
  let x := run (readFileCached "/data/cl100k.tiktoken") emptyOverrideWorld in
  cacheDirOf emptyOverrideWorld = "/tmp/data-gym-cache" /\
  value x = ("QUJD 1", None) /\
  files (after x) !! "/tmp/data-gym-cache/787ec68696af9df78cb60f4e9341b3128838ab93"
    = Some "QUJD 1" /\
  existsb isWrite (trace x) = true.
Proof. vm_compute. repeat split. Qed.

(** C5.  On a cache miss, when the fetch succeeds and the temporary file is
    written but the rename fails, [readFileCached] returns the error of the
    rename, and [loadTiktokenBpe] returns that error and no table: the
    fetched bytes are not parsed. *)
Theorem C5_rename_failure_surfaces (w : World) (blobpath contents : string)
    (serr e : error) :
  let cachePath := cachePathOf w blobpath in
  let tmp := tmpFilenameOf cachePath (uuids w (uuidCount w)) in
  fst (perform (Stat cachePath) w) = Some serr ->
  value (run (readFile blobpath) w) = (contents, None) ->
  fault w _ (WriteFile tmp contents ModePerm) = None ->
  fault w _ (Rename tmp cachePath) = Some e ->
  snd (value (run (readFileCached blobpath) w)) = Some e /\
  value (run (loadTiktokenBpe blobpath) w) = Failed e.
Proof.
  cbv zeta. intros Hs Hf Hw Hr.
  assert (Hv : value (run (readFileCached blobpath) w) = (contents, Some e)).
  { destruct (run_readFileCached w blobpath) as (tr0 & _ & ->).
    destruct (run_miss (cacheDirOf w) blobpath w serr (cacheDirOf_nonempty w) Hs)
      as [Hv _].
    destruct (run (readFileCachedIn _ _) w) as [[r w1] tr1].
    unfold value in *. cbn [fst snd] in *. rewrite Hv. clear Hv.
    rewrite Hf. cbn [fst snd].
    pose proof (run_readFile_frame blobpath w) as (_ & _ & _ & _ & Hu & Hc & Hfa & _).
    pose proof (run_populate (cacheDirOf w) (filepathJoin (cacheDirOf w) (cacheKeyOf blobpath))
                  contents (after (run (readFile blobpath) w))) as Hp.
    cbv zeta in Hp. rewrite Hu, Hc, Hfa in Hp.
    unfold cachePathOf in Hw, Hr. rewrite Hw, Hr in Hp. exact Hp. }
  split; [rewrite Hv; reflexivity|].
  unfold loadTiktokenBpe. rewrite run_bind.
  destruct (run (readFileCached blobpath) w) as [[r w1] tr1].
  unfold value in *. cbn [fst snd] in *. subst r. reflexivity.
Qed.

(** C5 at a disk where the rename is refused. *)
Lemma C5_rename_failure_surfaces_witness :
  value (run (loadTiktokenBpe "/data/cl100k.tiktoken") (diskWorld true))
    = Failed (OSError "rename" "" "permission denied").
Proof.
  refine (proj2 (C5_rename_failure_surfaces (diskWorld true) "/data/cl100k.tiktoken"
                   "QUJD 1" (notExist "stat" _) _ _ _ _ _));
    vm_compute; reflexivity.
Defined.

Lemma readFileCached_hit (w : World) (blobpath data : string) :
  files w !! cachePathOf w blobpath = Some data ->
  fault w _ (Stat (cachePathOf w blobpath)) = None ->
  fault w _ (ReadFile (cachePathOf w blobpath)) = None ->
  exists tr0, quiet tr0 /\
  run (readFileCached blobpath) w =
  ((data, None), w,
   (tr0 ++ [Ev (Stat (cachePathOf w blobpath)) None;
            Ev (ReadFile (cachePathOf w blobpath)) (data, None)])%list).
Proof.
  intros Hf Hs Hr.
  destruct (run_readFileCached w blobpath) as (tr0 & Hq & ->).
  rewrite (run_hit (cacheDirOf w) blobpath w data (cacheDirOf_nonempty w) Hf Hs Hr).
  exists tr0. split; [exact Hq|reflexivity].
Qed.

(** C6, as stated, fails: a file at the cache path is not enough.  When
    [os.Stat] fails on an entry that is there, the call goes to the Source
    Reader and returns its bytes, not those of the entry. *)
Lemma C6_counterexample :
  ~ (forall (w : World) (blobpath data : string),
       files w !! cachePathOf w blobpath = Some data ->
       value (run (readFileCached blobpath) w) = (data, None)) /\
  ~ (forall (w : World) (blobpath data : string),
       files w !! cachePathOf w blobpath = Some data ->
       Forall (fun e => isFetch e = false) (trace (run (readFileCached blobpath) w))).
Proof.
  split; intros H;
    specialize (H (More.worldWith More.staleCache More.statFails None)
                  "/data/cl100k.tiktoken" "QUJD 0");
    (assert (Hf : files (More.worldWith More.staleCache More.statFails None)
                    !! cachePathOf (More.worldWith More.staleCache More.statFails None)
                         "/data/cl100k.tiktoken" = Some "QUJD 0")
       by (vm_compute; reflexivity));
    specialize (H Hf).
  - vm_compute in H. discriminate H.
  - assert (He : existsb isFetch
                   (trace (run (readFileCached "/data/cl100k.tiktoken")
                             (More.worldWith More.staleCache More.statFails None))) = true)
      by (vm_compute; reflexivity).
    apply existsb_exists in He as (ev & Hin & Hev).
    rewrite List.Forall_forall in H. specialize (H ev Hin). congruence.
Qed.

(** C6, amended.  When a file is at the cache path and [os.Stat] and the
    read of it succeed, the call returns its contents, changes nothing, and
    makes no call of the Source Reader. *)
Theorem C6_cache_hit (w : World) (blobpath data : string) :
  files w !! cachePathOf w blobpath = Some data ->
  fault w _ (Stat (cachePathOf w blobpath)) = None ->
  fault w _ (ReadFile (cachePathOf w blobpath)) = None ->
  let x := run (readFileCached blobpath) w in
  value x = (data, None) /\ after x = w /\
  Forall (fun e => isFetch e = false) (trace x).
Proof.
  intros Hf Hs Hr. cbv zeta.
  destruct (readFileCached_hit w blobpath data Hf Hs Hr) as (tr0 & Hq & ->).
  unfold value, after, trace. cbn [fst snd]. repeat split.
  apply Forall_app. split.
  - eapply Forall_impl; [exact Hq|]. intros ev H. apply H.
  - repeat constructor.
Qed.

(** C6 at a cache that holds the entry. *)
Lemma C6_cache_hit_witness :
  value (run (readFileCached "/data/cl100k.tiktoken") cachedWorld) = ("QUJD 1", None) /\
  Forall (fun e => isFetch e = false)
         (trace (run (readFileCached "/data/cl100k.tiktoken") cachedWorld)).
Proof.
  pose proof (C6_cache_hit cachedWorld "/data/cl100k.tiktoken" "QUJD 1") as H.
  cbv zeta in H.
  destruct H as (Hv & _ & Ht); [vm_compute; reflexivity|reflexivity|reflexivity|].
  split; [exact Hv|exact Ht].
Defined.

Lemma perform_config {R : Type} (c : call R) w : sameConfig w (snd (perform c w)).
Proof.
  destruct c; cbn [perform];
    repeat match goal with
           | |- context [match ?x with _ => _ end] => destruct x
           end; repeat split.
Qed.

Lemma run_config {A : Type} (p : Prog A) : forall w, sameConfig w (after (run p w)).
Proof.
  induction p as [a|R c k IH]; intros w; cbn [run].
  - repeat split.
  - pose proof (perform_config c w) as (He & Ht & Hf).
    destruct (perform c w) as [r w1]. cbn [snd] in *.
    pose proof (IH r w1) as (He' & Ht' & Hf').
    destruct (run (k r) w1) as [[a w2] tr]. unfold after in *. cbn [fst snd] in *.
    repeat split; congruence.
Qed.

(** C8, as stated, fails: a rank of -1 is parsed and kept. *)
Lemma C8_counterexample :
  ~ (forall (contents : string) (m : RankTable) (tok : string) (r : Z),
       parseBpe contents = Ranks m -> m !! tok = Some r -> 0 <= r).
Proof.
  intros H.
  specialize (H "QQ== -1" {["A" := -1]} "A" (-1)).
  assert (Hp : parseBpe "QQ== -1" = Ranks {["A" := -1]}) by (vm_compute; reflexivity).
  specialize (H Hp (lookup_singleton_eq _ _)). lia.
Qed.

(** C8, amended.  Every rank of a table that was parsed is an integer in the
    range of [int], negative ones included, and every line that was not
    empty had a second field that is a decimal integer with an optional
    sign: any other second field ends the call without a table. *)
Theorem C8_ranks_are_signed_ints (contents : string) (m : RankTable) :
  parseBpe contents = Ranks m ->
  (forall tok r, m !! tok = Some r -> minInt <= r <= maxInt) /\
  (forall line, In line (Split contents "010"%char) -> line <> "" ->
     exists part0 part1 rest,
       Split line " "%char = part0 :: part1 :: rest /\ signedDecimal part1 = true).
Proof.
  intros H. apply (loadLines_ranks _ ∅ m); [|exact H].
  intros tok r Hl. rewrite lookup_empty in Hl. discriminate.
Qed.

(** C8 at a line with the rank -1. *)
Lemma C8_ranks_are_signed_ints_witness :
  parseBpe "QQ== -1" = Ranks {["A" := -1]} /\
  (forall tok r, ({["A" := -1]} : RankTable) !! tok = Some r -> minInt <= r <= maxInt).
Proof.
  assert (Hp : parseBpe "QQ== -1" = Ranks {["A" := -1]}) by (vm_compute; reflexivity).
  split; [exact Hp|].
  exact (proj1 (C8_ranks_are_signed_ints "QQ== -1" {["A" := -1]} Hp)).
Defined.

(** C9.  The loop of [loadTiktokenBpe] and the loop of
    [LoadTiktokenBpeFromFS] come to the same result on every contents: the
    same table, the same error or the same panic. *)
Theorem C9_parsers_agree (contents : string) :
  parseBpeFS contents = parseBpe contents.
Proof. apply parseBpeFS_eq. Qed.

(** The two loaders, when they read the same contents. *)
Lemma loaders_agree (w : World) (blobpath : string) (fs : embedFS)
    (path contents : string) :
  value (run (readFileCached blobpath) w) = (contents, None) ->
  fs !! path = Some (EmbedFile contents) ->
  value (run (LoadTiktokenBpe NewDefaultBpeLoader blobpath) w)
    = LoadTiktokenBpeFromFS NewDefaultBpeLoader fs path.
Proof.
  intros Hc Hf. cbn [LoadTiktokenBpe LoadTiktokenBpeFromFS defaultBpeLoader_BpeLoader].
  unfold loadTiktokenBpe, loadTiktokenBpeFromFS, embedOpen.
  rewrite Hf. cbn [embedReadAll]. rewrite parseBpeFS_eq, run_bind.
  destruct (run (readFileCached blobpath) w) as [[r w1] tr1].
  unfold value in *. cbn [fst snd] in *. subst r. reflexivity.
Qed.

(** C10.  A line of white space only that is not empty is not skipped: the
    loop stops at it, and contents with such a line give no table, from
    either loader. *)
Theorem C10_whitespace_line_fails (contents line : string) :
  In line (Split contents "010"%char) ->
  line <> "" -> whitespaceOnly line = true ->
  (forall bpeRanks, exists r, loadLine bpeRanks line = inr r) /\
  (forall m, parseBpe contents <> Ranks m) /\
  (forall m, parseBpeFS contents <> Ranks m).
Proof.
  intros Hin Hne Hws. split; [|split].
  - intros m0. destruct (loadLine_whitespace m0 line Hne Hws) as (r & Hr & _).
    exists r. exact Hr.
  - intros m. exact (loadLines_whitespace _ ∅ line Hin Hne Hws m).
  - intros m. rewrite parseBpeFS_eq. exact (loadLines_whitespace _ ∅ line Hin Hne Hws m).
Qed.

(** C10 at a line that is a carriage return. *)
Lemma C10_whitespace_line_fails_witness :
  In (String "013" "")
     (Split ("QUJD 1" ++ String "010" (String "013" (String "010" ""))) "010"%char) /\
  whitespaceOnly (String "013" "") = true /\
  exists r, loadLine ∅ (String "013" "") = inr r.
Proof.
  assert (Hin : In (String "013" "")
     (Split ("QUJD 1" ++ String "010" (String "013" (String "010" ""))) "010"%char))
    by (vm_compute; right; left; reflexivity).
  split; [exact Hin|]. split; [reflexivity|].
  refine (proj1 (C10_whitespace_line_fails _ (String "013" "") Hin _ _) ∅).
  - discriminate.
  - reflexivity.
Defined.

(** What the two examples of C10 come to. *)
Example space_line : parseBpe " " = Failed (NumError "Atoi" "" ErrSyntax).
Proof. vm_compute. reflexivity. Qed.

Example carriage_return_line :
  parseBpe ("QUJD 1" ++ String "010" (String "013" (String "010" "")))
    = Panicked (IndexOutOfRange 1 1).
Proof. vm_compute. reflexivity. Qed.

Example crlf_line :
  parseBpe ("QUJD 1" ++ String "013" (String "010" ""))
    = Failed (NumError "Atoi" ("1" ++ String "013" "") ErrSyntax).
Proof. vm_compute. reflexivity. Qed.

End Loader.

(** ** What a goroutine does, whatever its calls return *)

Section Goroutines.
Import Go Sys Load OS Conc ConcInv.

Lemma drew_snoc u evs e : drew u evs -> drew u (evs ++ [e]).
Proof.
  unfold drew. rewrite map_app. intros H. apply in_or_app. left. exact H.
Qed.

Lemma drew_last u evs : drew u (evs ++ [Ev UuidNewString u]).
Proof.
  unfold drew. rewrite map_app. apply in_or_app. right. left. reflexivity.
Qed.

Lemma drew_snoc_inv u evs e :
  drew u (evs ++ [e]) -> drew u evs \/ uuidOf e = Some u.
Proof.
  unfold drew. rewrite map_app. intros H. apply in_app_or in H as [H|[H|[]]]; auto.
Qed.

Lemma fetched_snoc id evs data e : fetched id evs data -> fetched id (evs ++ [e]) data.
Proof.
  intros (pre & tr & post & -> & Hr).
  exists pre, tr, (post ++ [e])%list. split; [|exact Hr].
  rewrite <- !app_assoc. reflexivity.
Qed.

Lemma atWrite_snoc id evs e name data k :
  atWrite id evs name data k -> atWrite id (evs ++ [e]) name data k.
Proof.
  intros (d & u & Hn & Hd & Hl & Hf & Hk1 & Hk2).
  exists d, u. repeat split; auto using drew_snoc, fetched_snoc.
Qed.

Lemma tok_harmless id (p : Prog Res) : forall evs, harmless p -> tok id evs p.
Proof.
  induction p as [a|R c k IH]; intros evs H; [exact I|].
  destruct c; cbn [harmless] in H; try contradiction; cbn [tok]; intros r; apply IH, H.
Qed.

Lemma tok_bind id {X : Type} (q : Prog X) (K : X -> Prog Res) : forall evs,
  harmless q ->
  (forall tr x, runsTo q tr x -> tok id (evs ++ tr) (K x)) ->
  tok id evs (bind q K).
Proof.
  induction q as [x|R c k IH]; intros evs Hh HK.
  - cbn [bind]. rewrite <- (app_nil_r evs). apply HK. constructor.
  - assert (Hnext : forall r, tok id (evs ++ [Ev c r]) (bind (k r) K)).
    { intros r. apply IH.
      - destruct c; cbn [harmless] in Hh; try contradiction; apply Hh.
      - intros tr x Hr. rewrite <- app_assoc. apply HK. constructor. exact Hr. }
    destruct c; cbn [harmless] in Hh; try contradiction; cbn [bind tok]; exact Hnext.
Qed.

Lemma harmless_resolveCacheDir : harmless resolveCacheDir.
Proof.
  unfold resolveCacheDir. cbn [bind trigger harmless]. intros e1.
  destruct (negb (String.eqb e1 "")); cbn [bind trigger harmless]; [intros; exact I|].
  intros e2. destruct (negb (String.eqb e2 "")); cbn [bind trigger harmless];
    intros; exact I.
Qed.

Lemma harmless_readFile blobpath : harmless (readFile blobpath).
Proof.
  unfold readFile.
  destruct (negb (HasPrefix blobpath "http://") && negb (HasPrefix blobpath "https://"));
    cbn [bind trigger harmless]; intros [f|e]; cbn [bind trigger harmless];
    intros; exact I.
Qed.

(** [populate] after a fetch that returned [contents]. *)
Lemma tok_populate id evs cacheDir contents :
  fetched id evs contents ->
  tok id evs (populate cacheDir (pathIn cacheDir id) contents).
Proof.
  intros Hf. unfold populate. cbn [bind trigger tok]. intros merr u Hu.
  exists cacheDir, u. repeat split.
  - apply drew_last.
  - exact Hu.
  - auto using fetched_snoc.
Qed.

(** A call of [readFileCached] at its start. *)
Lemma tok_readFileCached id : tok id [] (readFileCached id).
Proof.
  unfold readFileCached. apply tok_bind; [apply harmless_resolveCacheDir|].
  intros tr0 cacheDir _. unfold readFileCachedIn.
  destruct (String.eqb cacheDir ""); [apply tok_harmless, harmless_readFile|].
  cbn [bind trigger tok]. intros [serr|].
  2:{ cbn [tok trigger]. intros; exact I. }
  apply tok_bind; [apply harmless_readFile|].
  intros tr [contents [e|]] Hr; [exact I|].
  apply tok_populate. exists ([] ++ tr0 ++ [Ev (Stat (pathIn cacheDir id)) (Some serr)])%list, tr, [].
  split; [|exact Hr]. rewrite app_nil_r. reflexivity.
Qed.

End Goroutines.

(** ** Names of cache entries and of temporary files *)

Section Names.
Import Go Sys Load OS Conc ConcInv Spec.

Lemma append_cons (c : ascii) (a b : string) : String c a ++ b = String c (a ++ b).
Proof. reflexivity. Qed.

Lemma append_nil_r (s : string) : s ++ "" = s.
Proof.
  induction s as [|c s IH]; [reflexivity|]. rewrite append_cons, IH. reflexivity.
Qed.

Lemma append_assoc (a b c : string) : (a ++ b) ++ c = a ++ (b ++ c).
Proof.
  induction a as [|x a IH]; [reflexivity|]. rewrite !append_cons, IH. reflexivity.
Qed.

Lemma length_append (a b : string) :
  String.length (a ++ b) = (String.length a + String.length b)%nat.
Proof.
  induction a as [|x a IH]; [reflexivity|].
  rewrite append_cons. cbn [String.length]. rewrite IH. reflexivity.
Qed.

(** Two appends with second parts of one length. *)
Lemma append_eq_length (a a' b b' : string) :
  a ++ b = a' ++ b' -> String.length b = String.length b' -> a = a' /\ b = b'.
Proof.
  revert a'. induction a as [|x a IH]; intros a' H Hl.
  - destruct a' as [|x' a']; [split; [reflexivity|exact H]|].
    change ("" ++ b) with b in H. subst b.
    rewrite append_cons in Hl. cbn [String.length] in Hl.
    rewrite length_append in Hl. lia.
  - destruct a' as [|x' a'].
    + change ("" ++ b') with b' in H. subst b'.
      rewrite append_cons in Hl. cbn [String.length] in Hl.
      rewrite length_append in Hl. lia.
    + rewrite !append_cons in H. injection H as -> H.
      destruct (IH a' H Hl) as [-> ->]. split; reflexivity.
Qed.

(** The temporary names of two UUID strings of one length are the same for
    the same UUID only. *)
Lemma tmpFilenameOf_inj p p' u u' :
  tmpFilenameOf p u = tmpFilenameOf p' u' ->
  String.length u = String.length u' -> u = u'.
Proof.
  unfold tmpFilenameOf. intros H Hl.
  apply append_eq_length in H as [_ H].
  2:{ rewrite !length_append, Hl. reflexivity. }
  rewrite !append_cons in H. change ("" ++ ?x) with x in H.
  injection H as H. apply append_eq_length in H as [H _]; [exact H|reflexivity].
Qed.

Lemma lastByte_append a b : b <> "" -> lastByte (a ++ b) = lastByte b.
Proof.
  intros Hb. induction a as [|x a IH]; [reflexivity|].
  rewrite append_cons. cbn [lastByte]. rewrite IH.
  destruct (a ++ b) eqn:E; [|reflexivity].
  destruct a; [|discriminate]. change ("" ++ b) with b in E. contradiction.
Qed.

Lemma lastByte_tmpFilenameOf p u : lastByte (tmpFilenameOf p u) = Some "p"%char.
Proof.
  unfold tmpFilenameOf. rewrite lastByte_append by discriminate.
  rewrite append_cons. change ("" ++ ?x) with x.
  assert (H : lastByte (u ++ ".tmp") = Some "p"%char)
    by (rewrite lastByte_append by discriminate; reflexivity).
  cbn [lastByte]. destruct (u ++ ".tmp"); [discriminate|exact H].
Qed.

Lemma isHex_hexDigit d : 0 <= d <= 15 -> isHex (hexDigit d) = true.
Proof.
  intros H.
  assert (Hd : d = 0 \/ d = 1 \/ d = 2 \/ d = 3 \/ d = 4 \/ d = 5 \/ d = 6 \/ d = 7 \/
               d = 8 \/ d = 9 \/ d = 10 \/ d = 11 \/ d = 12 \/ d = 13 \/ d = 14 \/ d = 15)
    by lia.
  repeat (destruct Hd as [->|Hd]; [reflexivity|]). subst d. reflexivity.
Qed.

Lemma hexOf_isHex bs :
  Forall (fun b => 0 <= b <= 255) bs -> allBytes isHex (hexOf bs) = true.
Proof.
  induction 1 as [|b bs Hb _ IH]; [reflexivity|].
  assert (H1 : 0 <= Z.land b 15 <= 15).
  { replace (Z.land b 15) with (b mod 16) by (symmetry; apply (Z.land_ones b 4); lia).
    pose proof (Z.mod_pos_bound b 16 ltac:(lia)). lia. }
  assert (H2 : 0 <= Z.shiftr b 4 <= 15).
  { rewrite Z.shiftr_div_pow2 by lia. change (2 ^ 4) with 16.
    split; [apply Z.div_pos; lia|]. apply Z.lt_succ_r, Z.div_lt_upper_bound; lia. }
  cbn [hexOf allBytes]. rewrite IH, !isHex_hexDigit by assumption. reflexivity.
Qed.

Lemma bigEndian_bytes n x : Forall (fun b => 0 <= b <= 255) (bigEndian n x).
Proof.
  induction n as [|n IH]; constructor; [|exact IH].
  set (y := Z.shiftr x (8 * Z.of_nat n)).
  replace (Z.land y 255) with (y mod 256) by (symmetry; apply (Z.land_ones y 8); lia).
  pose proof (Z.mod_pos_bound y 256 ltac:(lia)). lia.
Qed.

(** A cache key is a string of hexadecimal digits that is not empty. *)
Lemma cacheKeyOf_hex id : allBytes isHex (cacheKeyOf id) = true /\ cacheKeyOf id <> "".
Proof.
  unfold cacheKeyOf, sha1Sum.
  destruct (sha1Blocks _ _ _) as [[[[h0 h1] h2] h3] h4].
  split.
  - apply hexOf_isHex. repeat (apply Forall_app; split); apply bigEndian_bytes.
  - cbn [bigEndian app hexOf]. discriminate.
Qed.

Lemma isHex_not c x : isHex x = false -> isHex c = true -> Ascii.eqb c x = false.
Proof.
  intros Hx Hc. destruct (Ascii.eqb_spec c x) as [->|]; [congruence|reflexivity].
Qed.

Lemma Split_one s sep :
  isHex sep = false -> allBytes isHex s = true -> Split s sep = [s].
Proof.
  intros Hsep. induction s as [|c s IH]; [reflexivity|].
  cbn [allBytes Split]. intros H. apply andb_true_iff in H as [Hc Hs].
  rewrite (isHex_not c sep Hsep Hc), (IH Hs). reflexivity.
Qed.

Lemma Split_append a b sep :
  Split (a ++ String sep b) sep = (Split a sep ++ Split b sep)%list.
Proof.
  induction a as [|c a IH].
  - change ("" ++ String sep b) with (String sep b). cbn [Split].
    rewrite Ascii.eqb_refl. reflexivity.
  - rewrite append_cons. cbn [Split]. rewrite IH.
    destruct (Ascii.eqb c sep); [reflexivity|].
    pose proof (Split_nonempty a sep) as Hne.
    destruct (Split a sep) as [|w ws]; [contradiction|reflexivity].
Qed.

Lemma cleanElems_app rooted xs ys : forall out,
  cleanElems rooted (xs ++ ys) out = cleanElems rooted ys (cleanElems rooted xs out).
Proof.
  induction xs as [|e es IH]; intros out; [reflexivity|].
  cbn [app cleanElems].
  destruct (String.eqb e ""); [apply IH|].
  destruct (String.eqb e "."); [apply IH|].
  destruct (String.eqb e ".."); [|apply IH].
  destruct out as [|top out']; [apply IH|].
  destruct (String.eqb top ".."); apply IH.
Qed.

(** A cache key is an element [Clean] keeps as it is. *)
Lemma cleanElems_key rooted key out :
  key <> "" -> allBytes isHex key = true ->
  cleanElems rooted [key] out = key :: out.
Proof.
  intros Hne Hh. destruct key as [|c k]; [contradiction|].
  cbn [allBytes] in Hh. apply andb_true_iff in Hh as [Hc _].
  cbn [cleanElems String.eqb].
  rewrite (isHex_not c "."%char eq_refl Hc). reflexivity.
Qed.

Lemma Join_snoc l k sep : exists pre, Join (l ++ [k]) sep = pre ++ k.
Proof.
  induction l as [|e l [pre IH]]; [exists ""; reflexivity|].
  exists (e ++ sep ++ pre). cbn [app Join]. cbn [app] in IH.
  destruct (l ++ [k])%list as [|x xs] eqn:E; [destruct l; discriminate|].
  rewrite IH, !append_assoc. reflexivity.
Qed.

Lemma Clean_suffix path elems key :
  path <> "" -> key <> "" -> allBytes isHex key = true ->
  Split path Separator = (elems ++ [key])%list ->
  exists pre, Clean path = pre ++ key.
Proof.
  intros Hp Hne Hh Hs. unfold Clean. destruct path as [|c rest]; [contradiction|].
  rewrite Hs, cleanElems_app, (cleanElems_key _ key _ Hne Hh). cbn [rev].
  destruct (Join_snoc (rev (cleanElems (Ascii.eqb c Separator) elems [])) key "/")
    as [pre ->].
  destruct (Ascii.eqb c Separator).
  - exists (String Separator pre). reflexivity.
  - destruct (String.eqb (pre ++ key) "") eqn:E; [|exists pre; reflexivity].
    apply String.eqb_eq in E. destruct pre; [|discriminate].
    change ("" ++ key) with key in E. contradiction.
Qed.

Lemma filepathJoin_suffix cacheDir key :
  key <> "" -> allBytes isHex key = true ->
  exists pre, filepathJoin cacheDir key = pre ++ key.
Proof.
  intros Hne Hh. unfold filepathJoin.
  destruct (String.eqb cacheDir "") eqn:Ed; cbn [negb].
  - apply String.eqb_neq in Hne as E. rewrite E. cbn [negb].
    apply (Clean_suffix key [] key Hne Hne Hh). apply Split_one; [reflexivity|exact Hh].
  - apply (Clean_suffix _ (Split cacheDir Separator) key); [|exact Hne|exact Hh|].
    + destruct cacheDir; discriminate.
    + rewrite Split_append, (Split_one key); [reflexivity|reflexivity|exact Hh].
Qed.

Lemma allBytes_lastByte p s :
  allBytes p s = true -> s <> "" -> exists c, lastByte s = Some c /\ p c = true.
Proof.
  induction s as [|c s IH]; [contradiction|]. cbn [allBytes]. intros H _.
  apply andb_true_iff in H as [Hc Hs].
  destruct s as [|c' s']; [exists c; split; [reflexivity|exact Hc]|].
  destruct (IH Hs) as (x & Hl & Hx); [discriminate|].
  exists x. split; [exact Hl|exact Hx].
Qed.

(** No cache path is the name of a temporary file. *)
Lemma cache_path_not_tmp path p u : isCachePath path -> path <> tmpFilenameOf p u.
Proof.
  intros (cacheDir & id & ->) H.
  destruct (cacheKeyOf_hex id) as [Hh Hne].
  destruct (filepathJoin_suffix cacheDir _ Hne Hh) as [pre Hp].
  pose proof (lastByte_tmpFilenameOf p u) as Hl.
  rewrite <- H, Hp, (lastByte_append _ _ Hne) in Hl.
  destruct (allBytes_lastByte _ _ Hh Hne) as (c & Hc & Hx).
  rewrite Hc in Hl. injection Hl as ->. discriminate.
Qed.

End Names.

(** ** The invariant of the cache under calls that run together *)

Section Invariant.
Import Go Sys Load OS Conc ConcInv.

Lemma tok_tinv w id evs p : tok id evs p -> tinv w (mkThread id evs (Running p)).
Proof.
  destruct p as [a|R c k]; [intros; exact I|].
  destruct c; unfold tinv; cbn [st ident Conc.evs tok]; try (intros H; exact H).
  intros [].
Qed.

Lemma tinv_frame w w' t :
  (forall name, tmpOf t = Some name -> files w' !! name = files w !! name) ->
  tinv w t -> tinv w' t.
Proof.
  destruct t as [id evs [[a|R c k]|name data rest perm k]]; unfold tinv, tmpOf;
    cbn [st ident Conc.evs]; intros Hf H.
  - exact I.
  - destruct c; try exact H.
    destruct H as (d & u & data & H1 & H2 & H3 & H4 & H5 & H6 & H7).
    exists d, u, data. rewrite (Hf _ eq_refl). auto 10.
  - destruct H as (H1 & written & H2 & H3). split; [exact H1|].
    exists written. rewrite (Hf _ eq_refl). auto.
Qed.

(** The temporary file of a goroutine is named after a UUID it drew. *)
Lemma tinv_tmp w t name :
  tinv w t -> tmpOf t = Some name ->
  exists p u, name = tmpFilenameOf p u /\ String.length u = 36%nat /\ drew u (evs t).
Proof.
  destruct t as [id evs [[a|R c k]|n data rest perm k]]; unfold tinv, tmpOf;
    cbn [st ident Conc.evs]; intros H Ht; try discriminate.
  - destruct c; try discriminate. injection Ht as <-.
    destruct H as (d & u & data & H1 & H2 & H3 & H4 & _). eauto.
  - injection Ht as <-.
    destruct H as ((d & u & H1 & H2 & H3 & _) & _). eauto.
Qed.

(** One goroutine moves and the files change at its temporary file and at
    its cache path only, the latter to what it fetched. *)
Lemma inv_update files0 ids w w' ts i t t' :
  Inv files0 ids (mkConfig w ts) ->
  ts !! i = Some t ->
  ident t' = ident t ->
  (forall u, drew u (evs t') -> drew u (evs t) \/ fresh u ts) ->
  (forall data, fetched (ident t) (evs t) data -> fetched (ident t) (evs t') data) ->
  tinv w' t' ->
  (forall path, files w' !! path <> files w !! path ->
     (exists p u, path = tmpFilenameOf p u /\ String.length u = 36%nat /\ drew u (evs t)) \/
     (exists cacheDir data, path = pathIn cacheDir (ident t) /\
        files w' !! path = Some data /\ fetched (ident t) (evs t') data)) ->
  Inv files0 ids (mkConfig w' (<[i := t']> ts)).
Proof.
  intros [Hc Ht Hids Hu] Hi Hid Hdrew Hfet Htinv Hch. cbn [world pool] in *.
  pose proof (lookup_lt_Some _ _ _ Hi) as Hlt.
  split; cbn [world pool].
  - intros path data Hp Hl.
    destruct (decide (files w' !! path = files w !! path)) as [E|E].
    + rewrite E in Hl. destruct (Hc path data Hp Hl) as [H0|(j & tj & d & Hj & Hpath & Hf)];
        [left; exact H0|right].
      destruct (decide (j = i)) as [->|Hne].
      * rewrite Hi in Hj. injection Hj as <-.
        exists i, t', d. rewrite list_lookup_insert_eq by exact Hlt.
        rewrite Hid. auto.
      * exists j, tj, d. rewrite list_lookup_insert_ne by congruence. auto.
    + destruct (Hch path E) as [(p & u & -> & _)|(d & data' & Hpath & Hl' & Hf)].
      * exfalso. exact (cache_path_not_tmp _ p u Hp eq_refl).
      * right. exists i, t', d. rewrite list_lookup_insert_eq by exact Hlt.
        rewrite Hid. rewrite Hl in Hl'. injection Hl' as <-. auto.
  - intros j tj Hj. destruct (decide (j = i)) as [->|Hne].
    + rewrite list_lookup_insert_eq in Hj by exact Hlt. injection Hj as <-. exact Htinv.
    + rewrite list_lookup_insert_ne in Hj by congruence.
      apply (tinv_frame w); [|exact (Ht j tj Hj)].
      intros name Hn.
      destruct (decide (files w' !! name = files w !! name)) as [E|E]; [exact E|].
      exfalso.
      destruct (tinv_tmp w tj name (Ht j tj Hj) Hn) as (pj & uj & -> & Hlj & Hdj).
      destruct (Hch _ E) as [(p & u & Heq & Hl & Hd)|(d & data & Hpath & _)].
      * apply tmpFilenameOf_inj in Heq; [|congruence]. subst uj.
        apply Hne. exact (Hu j i tj t u Hj Hi Hdj Hd).
      * refine (cache_path_not_tmp (pathIn d (ident t)) pj uj _ (eq_sym Hpath)).
        eexists _, _. reflexivity.
  - intros j tj Hj. destruct (decide (j = i)) as [->|Hne].
    + rewrite list_lookup_insert_eq in Hj by exact Hlt. injection Hj as <-.
      rewrite Hid. exact (Hids i t Hi).
    + rewrite list_lookup_insert_ne in Hj by congruence. exact (Hids j tj Hj).
  - intros j j' tj tj' u Hj Hj' Hd Hd'.
    destruct (decide (j = i)) as [->|Hne]; destruct (decide (j' = i)) as [->|Hne'];
      try reflexivity.
    + rewrite list_lookup_insert_eq in Hj by exact Hlt. injection Hj as <-.
      rewrite list_lookup_insert_ne in Hj' by congruence.
      destruct (Hdrew u Hd) as [Hold|Hfresh].
      * exact (Hu i j' t tj' u Hi Hj' Hold Hd').
      * exfalso. exact (Hfresh j' tj' Hj' Hd').
    + rewrite list_lookup_insert_eq in Hj' by exact Hlt. injection Hj' as <-.
      rewrite list_lookup_insert_ne in Hj by congruence.
      destruct (Hdrew u Hd') as [Hold|Hfresh].
      * exact (Hu j i tj t u Hj Hi Hd Hold).
      * exfalso. exact (Hfresh j tj Hj Hd).
    + rewrite list_lookup_insert_ne in Hj by congruence.
      rewrite list_lookup_insert_ne in Hj' by congruence.
      exact (Hu j j' tj tj' u Hj Hj' Hd Hd').
Qed.

Lemma overwrite_nil chunk : overwrite chunk "" = chunk.
Proof. induction chunk as [|c s IH]; [reflexivity|]. cbn [overwrite]. rewrite IH. reflexivity. Qed.

Lemma writeAt_end written chunk :
  writeAt written (String.length written) chunk = written ++ chunk.
Proof.
  induction written as [|c s IH]; [apply overwrite_nil|].
  cbn [String.length writeAt]. rewrite IH. reflexivity.
Qed.

(** The calls that are one step and neither write nor rename leave the files. *)
Lemma perform_files {R : Type} (c : call R) w :
  match c with
  | WriteFile _ _ _ | Rename _ _ => True
  | _ => files (snd (perform c w)) = files w
  end.
Proof.
  destruct c; cbn [perform]; try exact I;
    repeat match goal with
           | |- context [match ?x with _ => _ end] => destruct x
           end; reflexivity.
Qed.

Lemma drew_snoc_other u evs {R : Type} (c : call R) (r : R) :
  drew u (evs ++ [Ev c r]) -> uuidOf (Ev c r) = None -> drew u evs.
Proof.
  intros H Hc. apply drew_snoc_inv in H as [H|H]; [exact H|congruence].
Qed.

(** A step keeps the invariant. *)
Lemma step_Inv files0 ids c c' : Inv files0 ids c -> step c c' -> Inv files0 ids c'.
Proof.
  intros HI Hs. destruct Hs as
    [ w w' ts Hf Hh
    | i id evs R c k w ts Hi Ha
    | i id evs k w ts u Hi Hlen Hfresh
    | i id evs name data perm k w ts e Hi
    | i id evs name data perm k w ts Hi
    | i id evs name data chunk rest perm k w ts Hi
    | i id evs name data rest perm k w ts e Hi
    | i id evs name data perm k w ts Hi ].
  - (* the world moves *)
    destruct HI as [Hc Ht Hids Hu]. cbn [world pool] in *. split; cbn [world pool].
    + intros path data Hp Hl. rewrite Hf in Hl. exact (Hc path data Hp Hl).
    + intros j tj Hj. apply (tinv_frame w); [|exact (Ht j tj Hj)].
      intros name _. rewrite Hf. reflexivity.
    + exact Hids.
    + exact Hu.
  - (* a call that is one step *)
    pose proof (inv_threads _ _ _ HI i _ Hi) as Ht. cbn [world] in Ht.
    pose proof (perform_files c w) as Hf.
    destruct c; try discriminate Ha;
      try (unfold tinv in Ht; cbn [st ident Conc.evs tok] in Ht;
           apply (inv_update files0 ids w _ ts i _ _ HI Hi); cbn [ident Conc.evs];
           [ reflexivity
           | intros u Hd; left; exact (drew_snoc_other _ _ _ _ Hd eq_refl)
           | intros data; apply fetched_snoc
           | apply tok_tinv, Ht
           | intros pth E; rewrite Hf in E; contradiction ]).
    (* the rename *)
    unfold tinv in Ht. cbn [st ident Conc.evs] in Ht.
    destruct Ht as (d & u & data & -> & -> & Hd & Hl & Hfe & Hfile & Hk).
    apply (inv_update files0 ids w _ ts i _ _ HI Hi); cbn [ident Conc.evs].
    + reflexivity.
    + intros u' Hd'. left. exact (drew_snoc_other _ _ _ _ Hd' eq_refl).
    + intros data'. apply fetched_snoc.
    + unfold tinv. cbn [st]. rewrite Hk. exact I.
    + intros path E. cbn [perform] in E |- *.
      destruct (fault w _ (Rename _ _)); [contradiction|].
      rewrite Hfile in E |- *. cbn [snd files setFiles] in E |- *.
      destruct (decide (path = pathIn d id)) as [->|Hn1].
      * right. exists d, data. rewrite lookup_insert_eq.
        split; [reflexivity|]. split; [reflexivity|]. apply fetched_snoc, Hfe.
      * rewrite lookup_insert_ne in E by congruence.
        destruct (decide (path = tmpFilenameOf (pathIn d id) u)) as [->|Hn2].
        -- left. eauto.
        -- rewrite lookup_delete_ne in E by congruence. contradiction.
  - (* a UUID is drawn *)
    pose proof (inv_threads _ _ _ HI i _ Hi) as Ht. cbn [world] in Ht.
    unfold tinv in Ht. cbn [st ident Conc.evs tok] in Ht.
    apply (inv_update files0 ids w _ ts i _ _ HI Hi); cbn [ident Conc.evs].
    + reflexivity.
    + intros u' Hd. apply drew_snoc_inv in Hd as [Hd|Hd]; [left; exact Hd|].
      right. cbn in Hd. injection Hd as <-. exact Hfresh.
    + intros data. apply fetched_snoc.
    + apply tok_tinv, Ht, Hlen.
    + intros path E. contradiction.
  - (* the temporary file cannot be opened *)
    pose proof (inv_threads _ _ _ HI i _ Hi) as Ht. cbn [world] in Ht.
    unfold tinv in Ht. cbn [st ident Conc.evs tok] in Ht.
    destruct Ht as (d & u & -> & Hd & Hl & Hfe & Hk1 & Hk2).
    apply (inv_update files0 ids w _ ts i _ _ HI Hi); cbn [ident Conc.evs].
    + reflexivity.
    + intros u' Hd'. left. exact (drew_snoc_other _ _ _ _ Hd' eq_refl).
    + intros data'. apply fetched_snoc.
    + unfold tinv. cbn [st]. rewrite Hk1. exact I.
    + intros path E. contradiction.
  - (* the temporary file is opened, empty *)
    pose proof (inv_threads _ _ _ HI i _ Hi) as Ht. cbn [world] in Ht.
    unfold tinv in Ht. cbn [st ident Conc.evs tok] in Ht.
    pose proof Ht as (d & u & -> & Hd & Hl & Hfe & Hk1 & Hk2).
    apply (inv_update files0 ids w _ ts i _ _ HI Hi); cbn [ident Conc.evs].
    + reflexivity.
    + intros u' Hd'. left. exact Hd'.
    + intros data' H. exact H.
    + unfold tinv. cbn [st ident Conc.evs files setFiles]. split; [exact Ht|].
      exists "". rewrite lookup_insert_eq. split; reflexivity.
    + intros path E. cbn [files setFiles] in E. left.
      destruct (decide (path = tmpFilenameOf (pathIn d id) u)) as [->|Hn]; [eauto|].
      rewrite lookup_insert_ne in E by congruence. contradiction.
  - (* a part of the data is written *)
    pose proof (inv_threads _ _ _ HI i _ Hi) as Ht. cbn [world] in Ht.
    unfold tinv in Ht. cbn [st ident Conc.evs tok] in Ht.
    destruct Ht as (Hw & written & Hfile & Hdata).
    pose proof Hw as (d & u & -> & Hd & Hl & Hfe & Hk1 & Hk2).
    assert (Hoff : (String.length data - String.length (chunk ++ rest))%nat
                   = String.length written).
    { rewrite <- Hdata, (length_append written). lia. }
    assert (Hnew : writeThrough w (tmpFilenameOf (pathIn d id) u)
                     (String.length data - String.length (chunk ++ rest)) chunk
                   = <[tmpFilenameOf (pathIn d id) u := written ++ chunk]> (files w)).
    { unfold writeThrough. rewrite Hfile, Hoff, writeAt_end. reflexivity. }
    apply (inv_update files0 ids w _ ts i _ _ HI Hi); cbn [ident Conc.evs].
    + reflexivity.
    + intros u' Hd'. left. exact Hd'.
    + intros data' H. exact H.
    + unfold tinv. cbn [st ident Conc.evs files setFiles]. split; [exact Hw|].
      exists (written ++ chunk). rewrite Hnew, lookup_insert_eq.
      split; [reflexivity|]. rewrite append_assoc. exact Hdata.
    + intros path E. cbn [files setFiles] in E. rewrite Hnew in E. left.
      destruct (decide (path = tmpFilenameOf (pathIn d id) u)) as [->|Hn]; [eauto|].
      rewrite lookup_insert_ne in E by congruence. contradiction.
  - (* the write fails *)
    pose proof (inv_threads _ _ _ HI i _ Hi) as Ht. cbn [world] in Ht.
    unfold tinv in Ht. cbn [st ident Conc.evs tok] in Ht.
    destruct Ht as ((d & u & -> & Hd & Hl & Hfe & Hk1 & Hk2) & _).
    apply (inv_update files0 ids w _ ts i _ _ HI Hi); cbn [ident Conc.evs].
    + reflexivity.
    + intros u' Hd'. left. exact (drew_snoc_other _ _ _ _ Hd' eq_refl).
    + intros data'. apply fetched_snoc.
    + unfold tinv. cbn [st]. rewrite Hk1. exact I.
    + intros path E. contradiction.
  - (* the data is written and the file closed *)
    pose proof (inv_threads _ _ _ HI i _ Hi) as Ht. cbn [world] in Ht.
    unfold tinv in Ht. cbn [st ident Conc.evs tok] in Ht.
    destruct Ht as ((d & u & -> & Hd & Hl & Hfe & Hk1 & Hk2) & written & Hfile & Hdata).
    rewrite append_nil_r in Hdata. subst written.
    apply (inv_update files0 ids w _ ts i _ _ HI Hi); cbn [ident Conc.evs].
    + reflexivity.
    + intros u' Hd'. left. exact (drew_snoc_other _ _ _ _ Hd' eq_refl).
    + intros data'. apply fetched_snoc.
    + unfold tinv. cbn [st ident Conc.evs]. rewrite Hk2. unfold renameThen.
      exists d, u, data. repeat split; auto using drew_snoc, fetched_snoc.
    + intros path E. contradiction.
Qed.

End Invariant.

(** ** Schedules are runs *)

Section Schedules.
Import Go Sys Load OS Conc ConcInv Sched.

Lemma drewb_complete u evs : drew u evs -> drewb u evs = true.
Proof.
  unfold drew, drewb. induction evs as [|e evs IH]; [intros []|].
  cbn [map existsb]. intros [H|H].
  - rewrite H, String.eqb_refl. reflexivity.
  - rewrite (IH H). apply orb_true_r.
Qed.

Lemma freshb_fresh u ts : freshb u ts = true -> fresh u ts.
Proof.
  unfold freshb, fresh. intros H i t Hi Hd.
  rewrite forallb_forall in H.
  specialize (H t (proj1 (list_elem_of_In _ _) (list_elem_of_lookup_2 _ _ _ Hi))).
  rewrite (drewb_complete _ _ Hd) in H. discriminate.
Qed.

Lemma splitAt_append n : forall s a b, splitAt n s = (a, b) -> a ++ b = s.
Proof.
  induction n as [|n IH]; intros s a b H.
  - destruct s; injection H as <- <-; reflexivity.
  - destruct s as [|c s]; [injection H as <- <-; reflexivity|].
    cbn [splitAt] in H. destruct (splitAt n s) as [a' b'] eqn:E.
    injection H as <- <-. rewrite append_cons, (IH _ _ _ E). reflexivity.
Qed.

(** A move of a schedule is a step. *)
Lemma advance_step c m c' : advance c m = Some c' -> step c c'.
Proof.
  destruct c as [w ts]. unfold advance, setThread. cbn [world pool].
  destruct m as [i|i u|i|i n|i];
    destruct (ts !! i) as [[id evs [[a|R cl k]|name data rest perm k]]|] eqn:Hi;
    try discriminate.
  - destruct (atomic cl) eqn:Ha; [|discriminate]. intros [= <-].
    apply step_call; assumption.
  - destruct cl; try discriminate.
    destruct ((String.length u =? 36)%nat && freshb u ts) eqn:H; [|discriminate].
    apply andb_true_iff in H as [Hl Hf]. intros [= <-].
    apply step_uuid; [assumption|apply Nat.eqb_eq, Hl|apply freshb_fresh, Hf].
  - destruct cl; try discriminate. intros [= <-]. apply step_open. assumption.
  - destruct (splitAt n rest) as [chunk rest'] eqn:E. intros [= <-].
    apply splitAt_append in E. subst rest. apply step_write. assumption.
  - destruct rest; [|discriminate]. intros [= <-]. apply step_write_done. assumption.
Qed.

Lemma play_reachable c0 ms : forall c c',
  reachable c0 c -> play c ms = Some c' -> reachable c0 c'.
Proof.
  induction ms as [|m ms IH]; intros c c' Hr H; cbn [play] in H.
  - injection H as <-. exact Hr.
  - destruct (advance c m) as [c1|] eqn:E; [|discriminate].
    apply (IH c1 c'); [|exact H].
    exact (reach_step _ _ _ Hr (advance_step _ _ _ E)).
Qed.

End Schedules.

(** ** The cache entries in every state *)

Section CacheInvariant.
Import Go Sys Load OS Conc ConcInv Sched Worlds Run.

Lemma initial_Inv w0 ids : Inv (files w0) ids (initial w0 ids).
Proof.
  split; cbn [initial world pool].
  - intros path data _ H. left. exact H.
  - intros i t Hi. rewrite list_lookup_fmap in Hi.
    destruct (ids !! i) as [id|]; [|discriminate]. injection Hi as <-.
    apply tok_tinv, tok_readFileCached.
  - intros i t Hi. rewrite list_lookup_fmap in Hi.
    destruct (ids !! i) as [id|]; [|discriminate]. injection Hi as <-. reflexivity.
  - intros i j ti tj u Hi _ Hd. rewrite list_lookup_fmap in Hi.
    destruct (ids !! i) as [id|]; [|discriminate]. injection Hi as <-.
    destruct Hd.
Qed.

Lemma reachable_Inv w0 ids c : reachable (initial w0 ids) c -> Inv (files w0) ids c.
Proof.
  induction 1 as [|c c' _ IH Hs]; [apply initial_Inv|exact (step_Inv _ _ _ _ IH Hs)].
Qed.

(** C2.  Goroutines call [readFileCached] at the same time, [WriteFile]
    taking several steps and the world changing around them.  In every state
    they can come to, a file at a path of the form CacheDirectory/CacheKey
    is the file that was there at the start or holds the complete bytes the
    Source Reader returned to one of the calls, for the identifier of that
    call, whose cache path it is; and a goroutine that is writing writes to
    the temporary name of a UUID it drew, which is no cache path. *)
Theorem C2_cache_entries_complete (w0 : World) (ids : list string) (c : config) :
  reachable (initial w0 ids) c ->
  (forall path data,
     isCachePath path -> files (world c) !! path = Some data ->
     files w0 !! path = Some data \/
     exists i id t cacheDir,
       ids !! i = Some id /\ pool c !! i = Some t /\
       path = filepathJoin cacheDir (cacheKeyOf id) /\
       fetched id (evs t) data) /\
  (forall i t name data rest perm k,
     pool c !! i = Some t -> st t = Writing name data rest perm k ->
     ~ isCachePath name /\
     exists cacheDir u,
       name = tmpFilenameOf (filepathJoin cacheDir (cacheKeyOf (ident t))) u /\
       drew u (evs t)).
Proof.
  intros Hr. apply reachable_Inv in Hr as [Hc Ht Hids Hu]. split.
  - intros path data Hp Hl.
    destruct (Hc path data Hp Hl) as [H0|(i & t & d & Hi & Hpath & Hf)];
      [left; exact H0|right].
    exists i, (ident t), t, d. auto using Hids.
  - intros i t name data rest perm k Hi Hst.
    specialize (Ht i t Hi). unfold tinv in Ht. rewrite Hst in Ht.
    destruct Ht as ((d & u & -> & Hd & _) & _). split.
    + intros Hp. exact (cache_path_not_tmp _ _ u Hp eq_refl).
    + exists d, u. split; [reflexivity|exact Hd].
Qed.

(** C2 at two calls for one identifier: the first has written half of its
    temporary file when the second has renamed its own. *)
Lemma C2_cache_entries_complete_witness :
  exists c,
    play twoCalls twoCallsSchedule = Some c /\
    reachable twoCalls c /\
    files (world c) !! tmpFilenameOf twoCallsPath aUuid = Some "QUJ" /\
    files (world c) !! twoCallsPath = Some "QUJD 1" /\
    (files (diskWorld false) !! twoCallsPath = Some "QUJD 1" \/
     exists i id t cacheDir,
       ["/data/cl100k.tiktoken"; "/data/cl100k.tiktoken"] !! i = Some id /\
       pool c !! i = Some t /\
       twoCallsPath = filepathJoin cacheDir (cacheKeyOf id) /\
       fetched id (evs t) "QUJD 1").
Proof.
  destruct (play twoCalls twoCallsSchedule) as [c|] eqn:E; [|vm_compute in E; discriminate].
  exists c. split; [reflexivity|].
  assert (Hr : reachable (initial (diskWorld false)
                            ["/data/cl100k.tiktoken"; "/data/cl100k.tiktoken"]) c)
    by exact (play_reachable twoCalls _ _ _ (reach_start _) E).
  split; [exact Hr|].
  assert (Ht : files (world c) !! tmpFilenameOf twoCallsPath aUuid = Some "QUJ").
  { apply (f_equal (fun o => match o with
                             | Some c => files (world c) !! tmpFilenameOf twoCallsPath aUuid
                             | None => None
                             end)) in E.
    rewrite <- E. vm_compute. reflexivity. }
  assert (Hf : files (world c) !! twoCallsPath = Some "QUJD 1").
  { apply (f_equal (fun o => match o with
                             | Some c => files (world c) !! twoCallsPath
                             | None => None
                             end)) in E.
    rewrite <- E. vm_compute. reflexivity. }
  split; [exact Ht|]. split; [exact Hf|].
  refine (proj1 (C2_cache_entries_complete _ _ c Hr) twoCallsPath "QUJD 1" _ Hf).
  exists "/tmp/data-gym-cache", "/data/cl100k.tiktoken". vm_compute. reflexivity.
Defined.

End CacheInvariant.

(** ** More on the rank-table parser *)

Section ParserMore.
Import Go Sys Load OS Spec.

Lemma Split_single s sep :
  allBytes (fun c => negb (Ascii.eqb c sep)) s = true -> Split s sep = [s].
Proof.
  induction s as [|c s IH]; [reflexivity|].
  cbn [allBytes Split]. intros H. apply andb_true_iff in H as [Hc Hs].
  apply negb_true_iff in Hc. rewrite Hc, (IH Hs). reflexivity.
Qed.

Lemma loadLines_app lines1 lines2 : forall bpeRanks,
  loadLines (lines1 ++ lines2) bpeRanks =
  match loadLines lines1 bpeRanks with
  | Ranks m => loadLines lines2 m
  | Failed e => Failed e
  | Panicked p => Panicked p
  end.
Proof.
  induction lines1 as [|l ls IH]; intros m; cbn [app loadLines]; [reflexivity|].
  destruct (loadLine m l) as [m'|r] eqn:E; [apply IH|].
  destruct r as [m'| |]; [|reflexivity|reflexivity].
  exfalso. exact (loadLine_stop _ _ _ E m' eq_refl).
Qed.

(** X1.  Contents in two parts with a line feed between them: the second
    part is parsed into the table of the first, and an error or a panic of
    the first part is the result whatever the second part holds. *)
Theorem parseBpe_append (a b : string) :
  parseBpe (a ++ String "010" b) =
  match parseBpe a with
  | Ranks m => loadLines (Split b "010"%char) m
  | Failed e => Failed e
  | Panicked p => Panicked p
  end.
Proof. unfold parseBpe. rewrite Split_append. apply loadLines_app. Qed.

(** X2.  Empty lines change nothing: a line feed at the end, a line feed at
    the start and a second line feed between two parts can all be left
    out. *)
Theorem parseBpe_empty_lines (a b : string) :
  parseBpe (a ++ String "010" "") = parseBpe a /\
  parseBpe (String "010" a) = parseBpe a /\
  parseBpe (a ++ String "010" (String "010" b)) = parseBpe (a ++ String "010" b).
Proof.
  unfold parseBpe. split; [|split].
  - rewrite Split_append, loadLines_app. cbn [Split loadLines loadLine String.eqb].
    destruct (loadLines (Split a "010") ∅); reflexivity.
  - change (String "010" a) with ("" ++ String "010" a).
    rewrite Split_append. reflexivity.
  - rewrite !Split_append, !loadLines_app.
    destruct (loadLines (Split a "010") ∅); reflexivity.
Qed.

(** What a line with two good fields does to the table. *)
Lemma loadLine_good bpeRanks line part0 part1 rest token rank :
  Split line " "%char = part0 :: part1 :: rest ->
  DecodeString part0 = (token, None) ->
  Atoi part1 = (rank, None) ->
  loadLine bpeRanks line = inl (<[token := rank]> bpeRanks).
Proof.
  intros Hs Hd Ha. unfold loadLine.
  destruct (String.eqb line "") eqn:E.
  { apply String.eqb_eq in E. subst line. discriminate Hs. }
  rewrite Hs. cbn [index nth_error]. rewrite Hd, Ha. reflexivity.
Qed.

(** X3.  The last line wins: a line with two good fields after contents that
    parse gives the table of the contents with the rank of that line for
    its token, whatever rank the token had before. *)
Theorem parseBpe_last_line_wins (a line part0 part1 token : string)
    (rest : list string) (rank : Z) (m : RankTable) :
  parseBpe a = Ranks m ->
  Split line "010"%char = [line] ->
  Split line " "%char = part0 :: part1 :: rest ->
  DecodeString part0 = (token, None) ->
  Atoi part1 = (rank, None) ->
  parseBpe (a ++ String "010" line) = Ranks (<[token := rank]> m) /\
  (<[token := rank]> m) !! token = Some rank.
Proof.
  intros Ha Hl Hs Hd Hr. split; [|apply lookup_insert_eq].
  unfold parseBpe in *. rewrite Split_append, loadLines_app, Ha, Hl.
  cbn [loadLines]. rewrite (loadLine_good _ _ _ _ _ _ _ Hs Hd Hr). reflexivity.
Qed.

(** X3 at a token that is given the ranks 1 and 7. *)
Lemma parseBpe_last_line_wins_witness :
  parseBpe "QUJD 1" = Ranks {["ABC" := 1]} /\
  parseBpe ("QUJD 1" ++ String "010" "QUJD 7") = Ranks (<["ABC" := 7]> {["ABC" := 1]}).
Proof.
  assert (Ha : parseBpe "QUJD 1" = Ranks {["ABC" := 1]}) by (vm_compute; reflexivity).
  split; [exact Ha|].
  refine (proj1 (parseBpe_last_line_wins "QUJD 1" "QUJD 7" "QUJD" "7" "ABC" [] 7 _ Ha _ _ _ _));
    vm_compute; reflexivity.
Defined.

(** X4.  Fields after the second are ignored: a line with more fields does
    to the table what its first two fields alone do. *)
Theorem loadLine_extra_fields (bpeRanks : RankTable) (part0 part1 more : string) :
  allBytes (fun c => negb (Ascii.eqb c " ")) part0 = true ->
  allBytes (fun c => negb (Ascii.eqb c " ")) part1 = true ->
  loadLine bpeRanks (part0 ++ String " " (part1 ++ String " " more))
  = loadLine bpeRanks (part0 ++ String " " part1).
Proof.
  intros H0 H1. unfold loadLine.
  rewrite !Split_append, (Split_single _ _ H0), (Split_single _ _ H1).
  assert (E : forall x, String.eqb (part0 ++ String " " x) "" = false).
  { intros x. destruct part0; reflexivity. }
  rewrite !E. cbn [app index nth_error].
  pose proof (Split_nonempty more " "%char) as Hne.
  destruct (Split more " ") as [|w ws]; [contradiction|]. reflexivity.
Qed.

(** X4 at a line with a third field. *)
Lemma loadLine_extra_fields_witness :
  loadLine ∅ ("QUJD" ++ String " " ("1" ++ String " " "and more"))
  = inl {["ABC" := 1]}.
Proof.
  rewrite (loadLine_extra_fields ∅ "QUJD" "1" "and more" eq_refl eq_refl).
  vm_compute. reflexivity.
Defined.


Lemma Split_singleton s sep : forall w, Split s sep = [w] -> w = s.
Proof.
  induction s as [|c l IH]; intros w H.
  - injection H as <-. reflexivity.
  - cbn [Split] in H. destruct (Ascii.eqb c sep).
    + injection H as _ H. exfalso. exact (Split_nonempty _ _ H).
    + destruct (Split l sep) as [|w' ws] eqn:Hl.
      * exfalso. exact (Split_nonempty _ _ Hl).
      * injection H as <- ->. rewrite (IH w' eq_refl). reflexivity.
Qed.

(** Where the loop panics. *)
Lemma loadLine_panics bpeRanks line p :
  loadLine bpeRanks line = inr (Panicked p) ->
  p = IndexOutOfRange 1 1 /\ line <> "" /\
  Split line " "%char = [line] /\ snd (DecodeString line) = None.
Proof.
  unfold loadLine. destruct (String.eqb line "") eqn:E; [discriminate|].
  apply String.eqb_neq in E.
  destruct (Split line " ") as [|part0 [|part1 rest]] eqn:Hs; cbn [index nth_error length].
  - exfalso. exact (Split_nonempty _ _ Hs).
  - destruct (DecodeString part0) as [token [e|]] eqn:Hd; [discriminate|].
    intros [= <-].
    assert (part0 = line) by exact (Split_singleton _ _ _ Hs).
    subst part0. rewrite Hd. auto.
  - destruct (DecodeString part0) as [token [e|]]; [discriminate|].
    destruct (Atoi part1) as [rank [e|]]; discriminate.
Qed.

(** X5.  The parser panics in one way only: at a line that is not empty, has
    no space and is good base64, where the second field is indexed.
    Contents whose lines all have a space never make it panic. *)
Theorem parseBpe_panics_only_without_space (contents : string) (p : panic) :
  parseBpe contents = Panicked p ->
  p = IndexOutOfRange 1 1 /\
  exists line,
    In line (Split contents "010"%char) /\ line <> "" /\
    Split line " "%char = [line] /\ snd (DecodeString line) = None.
Proof.
  unfold parseBpe. generalize (∅ : RankTable).
  induction (Split contents "010") as [|l ls IH]; intros m H; [discriminate|].
  cbn [loadLines] in H. destruct (loadLine m l) as [m'|r] eqn:E.
  - destruct (IH m' H) as (Hp & line & Hin & Hl). split; [exact Hp|].
    exists line. split; [right; exact Hin|exact Hl].
  - subst r. destruct (loadLine_panics _ _ _ E) as (Hp & Hl). split; [exact Hp|].
    exists l. split; [left; reflexivity|exact Hl].
Qed.

(** X5 at a line that is one token. *)
Lemma parseBpe_panics_only_without_space_witness :
  parseBpe "QUJD" = Panicked (IndexOutOfRange 1 1) /\
  exists line,
    In line (Split "QUJD" "010"%char) /\ line <> "" /\
    Split line " "%char = [line] /\ snd (DecodeString line) = None.
Proof.
  assert (H : parseBpe "QUJD" = Panicked (IndexOutOfRange 1 1)) by (vm_compute; reflexivity).
  split; [exact H|].
  exact (proj2 (parseBpe_panics_only_without_space "QUJD" _ H)).
Defined.

(** The table after the loop: its entries are those it had and those of the
    lines, and every line that is not empty left its token in it. *)
Lemma loadLines_entries lines : forall bpeRanks m,
  loadLines lines bpeRanks = Ranks m ->
  (forall tok r, m !! tok = Some r ->
     bpeRanks !! tok = Some r \/
     exists line part0 part1 rest,
       In line lines /\ Split line " "%char = part0 :: part1 :: rest /\
       DecodeString part0 = (tok, None) /\ Atoi part1 = (r, None)) /\
  (forall tok, is_Some (bpeRanks !! tok) -> is_Some (m !! tok)) /\
  (forall line, In line lines -> line <> "" ->
     exists part0 part1 rest tok,
       Split line " "%char = part0 :: part1 :: rest /\
       DecodeString part0 = (tok, None) /\ is_Some (m !! tok)).
Proof.
  induction lines as [|l ls IH]; intros m0 m H; cbn [loadLines] in H.
  - injection H as <-. split; [auto|]. split; [auto|]. intros line [].
  - destruct (loadLine m0 l) as [m1|r] eqn:E.
    2:{ subst r. exfalso. exact (loadLine_stop _ _ _ E m eq_refl). }
    destruct (IH m1 m H) as (Hsound & Hmono & Hcompl).
    apply loadLine_kept in E.
    destruct E as [[-> ->]|(p0 & p1 & rest & token & rank & Hs & Hd & Ha & ->)].
    + split; [|split].
      * intros tok r Hl. destruct (Hsound tok r Hl) as [H0|(line & q0 & q1 & qs & Hin & Hq)];
          [left; exact H0|right].
        exists line, q0, q1, qs. split; [right; exact Hin|exact Hq].
      * exact Hmono.
      * intros line [<-|Hin] Hne; [contradiction|exact (Hcompl line Hin Hne)].
    + split; [|split].
      * intros tok r Hl. destruct (Hsound tok r Hl) as [H0|(line & q0 & q1 & qs & Hin & Hq)].
        -- rewrite lookup_insert in H0. destruct (decide (token = tok)) as [->|Hne].
           ++ injection H0 as <-. right. exists l, p0, p1, rest.
              split; [left; reflexivity|]. auto.
           ++ left. exact H0.
        -- right. exists line, q0, q1, qs. split; [right; exact Hin|exact Hq].
      * intros tok Hk. apply Hmono. rewrite lookup_insert.
        destruct (decide (token = tok)); [eexists; reflexivity|exact Hk].
      * intros line [<-|Hin] Hne; [|exact (Hcompl line Hin Hne)].
        exists p0, p1, rest, token. split; [exact Hs|]. split; [exact Hd|].
        apply Hmono. rewrite lookup_insert_eq. eexists; reflexivity.
Qed.

(** X6.  A table that was parsed holds what the lines say and nothing else:
    every entry is the decoded first field and the parsed second field of
    one of the lines, and the token of every line that is not empty is a key
    of the table. *)
Theorem parseBpe_entries (contents : string) (m : RankTable) :
  parseBpe contents = Ranks m ->
  (forall tok r, m !! tok = Some r ->
     exists line part0 part1 rest,
       In line (Split contents "010"%char) /\
       Split line " "%char = part0 :: part1 :: rest /\
       DecodeString part0 = (tok, None) /\ Atoi part1 = (r, None)) /\
  (forall line, In line (Split contents "010"%char) -> line <> "" ->
     exists part0 part1 rest tok,
       Split line " "%char = part0 :: part1 :: rest /\
       DecodeString part0 = (tok, None) /\ is_Some (m !! tok)).
Proof.
  intros H. destruct (loadLines_entries _ ∅ m H) as (Hsound & _ & Hcompl).
  split; [|exact Hcompl].
  intros tok r Hl. destruct (Hsound tok r Hl) as [H0|H1]; [|exact H1].
  rewrite lookup_empty in H0. discriminate.
Qed.

(** X6 at two lines. *)
Lemma parseBpe_entries_witness :
  parseBpe ("QUJD 1" ++ String "010" "QQ== 2") = Ranks {["ABC" := 1; "A" := 2]} /\
  exists line part0 part1 rest,
    In line (Split ("QUJD 1" ++ String "010" "QQ== 2") "010"%char) /\
    Split line " "%char = part0 :: part1 :: rest /\
    DecodeString part0 = ("A", None) /\ Atoi part1 = (2, None).
Proof.
  assert (H : parseBpe ("QUJD 1" ++ String "010" "QQ== 2")
              = Ranks {["ABC" := 1; "A" := 2]}) by (vm_compute; reflexivity).
  split; [exact H|].
  refine (proj1 (parseBpe_entries _ _ H) "A" 2 _). vm_compute. reflexivity.
Defined.





End ParserMore.

(** ** More on the source reader and the cache store *)

Section CacheMore.
Import Go Sys Load OS Spec Cache Worlds More.

Lemma readFile_no_write blobpath w :
  Forall (fun ev => isWrite ev = false) (trace (run (readFile blobpath) w)).
Proof.
  destruct (isHTTP blobpath) eqn:H.
  - rewrite (run_readFile_http _ _ H).
    destruct (net w blobpath) as [[status body]|e]; repeat constructor.
  - rewrite (run_readFile_local _ _ H).
    destruct (fault w _ (Open blobpath)); [repeat constructor|].
    destruct (files w !! blobpath); repeat constructor.
Qed.

Lemma readFile_starts_fetch blobpath w :
  exists ev tr, trace (run (readFile blobpath) w) = ev :: tr /\ isFetch ev = true.
Proof.
  destruct (isHTTP blobpath) eqn:H.
  - rewrite (run_readFile_http _ _ H).
    destruct (net w blobpath) as [[status body]|e]; eexists _, _; split; reflexivity.
  - rewrite (run_readFile_local _ _ H).
    destruct (fault w _ (Open blobpath)); [eexists _, _; split; reflexivity|].
    destruct (files w !! blobpath); eexists _, _; split; reflexivity.
Qed.

(** X8.  An identifier without the http:// or https:// scheme is read as a
    path: no GET request is made and no file changes; a path that is not
    there is the error of [os.Open], one that is there gives the whole file
    when it reads through. *)
Theorem readFile_local_path (w : World) (blobpath : string) :
  isHTTP blobpath = false ->
  let x := run (readFile blobpath) w in
  Forall (fun ev => isGet ev = false) (trace x) /\
  files (after x) = files w /\
  (fault w _ (Open blobpath) = None -> files w !! blobpath = None ->
   value x = ("", Some (notExist "open" blobpath))) /\
  (forall data,
     fault w _ (Open blobpath) = None -> files w !! blobpath = Some data ->
     fault w _ (ReadAll (length (handles w))) = None ->
     value x = (data, None)).
Proof.
  intros H. cbv zeta. rewrite (run_readFile_local _ _ H).
  destruct (fault w _ (Open blobpath)) as [e|].
  - repeat split; try discriminate. repeat constructor.
  - destruct (files w !! blobpath) as [data|].
    + split; [repeat constructor|]. split; [reflexivity|]. split; [discriminate|].
      intros d _ [= <-] Hr. unfold value, readAllOf. cbn [fst]. rewrite Hr. reflexivity.
    + split; [repeat constructor|]. split; [reflexivity|]. split; [reflexivity|].
      discriminate.
Qed.

(** X8 at the rank file on disk, and at a path that is not there. *)
Lemma readFile_local_path_witness :
  isHTTP "/data/cl100k.tiktoken" = false /\
  value (run (readFile "/data/cl100k.tiktoken") (diskWorld false)) = ("QUJD 1", None).
Proof.
  split; [reflexivity|].
  refine (proj2 (proj2 (proj2 (readFile_local_path (diskWorld false)
            "/data/cl100k.tiktoken" eq_refl))) "QUJD 1" eq_refl _ eq_refl).
  vm_compute. reflexivity.
Defined.

(** X9.  The order of the cache directories: the first override when it is
    set and not empty, as it is; else the second override when it is set
    and not empty, as it is; else data-gym-cache under the temporary
    directory.  An override that is set to the empty string counts as not
    set. *)
Theorem cacheDirOf_priority (w : World) :
  (forall dir, env w !! "TIKTOKEN_CACHE_DIR" = Some dir -> dir <> "" ->
     cacheDirOf w = dir) /\
  (forall dir,
     env w !! "TIKTOKEN_CACHE_DIR" = None \/ env w !! "TIKTOKEN_CACHE_DIR" = Some "" ->
     env w !! "DATA_GYM_CACHE_DIR" = Some dir -> dir <> "" ->
     cacheDirOf w = dir) /\
  (env w !! "TIKTOKEN_CACHE_DIR" = None \/ env w !! "TIKTOKEN_CACHE_DIR" = Some "" ->
   env w !! "DATA_GYM_CACHE_DIR" = None \/ env w !! "DATA_GYM_CACHE_DIR" = Some "" ->
   cacheDirOf w = filepathJoin (tempDir w) "data-gym-cache").
Proof.
  rewrite cacheDirOf_eq. unfold getenv. split; [|split].
  - intros dir -> Hne. simpl. apply String.eqb_neq in Hne. rewrite Hne. reflexivity.
  - intros dir H1 -> Hne. apply String.eqb_neq in Hne.
    destruct H1 as [-> | ->]; simpl; rewrite Hne; reflexivity.
  - intros [-> | ->] [-> | ->]; reflexivity.
Qed.

End CacheMore.

(** ** More on the names in the cache directory *)

Section NamesMore.
Import Go Sys Load OS Spec Cache Conc ConcInv Worlds More.

Lemma length_hexOf bs : String.length (hexOf bs) = (2 * length bs)%nat.
Proof.
  induction bs as [|b bs IH]; [reflexivity|].
  cbn [hexOf String.length length]. rewrite IH. lia.
Qed.

Lemma length_bigEndian n x : length (bigEndian n x) = n.
Proof. induction n as [|n IH]; [reflexivity|]. cbn [bigEndian length]. rewrite IH. reflexivity. Qed.

(** X10.  The cache key of every identifier is 40 lower-case hexadecimal
    digits. *)
Theorem cacheKeyOf_forty_hex (blobpath : string) :
  String.length (cacheKeyOf blobpath) = 40%nat /\
  allBytes isHex (cacheKeyOf blobpath) = true.
Proof.
  split; [|exact (proj1 (cacheKeyOf_hex blobpath))].
  unfold cacheKeyOf, sha1Sum.
  destruct (sha1Blocks _ _ _) as [[[[h0 h1] h2] h3] h4].
  rewrite length_hexOf, !length_app, !length_bigEndian. reflexivity.
Qed.

Lemma Join_last l k sep :
  Join (l ++ [k]) sep = k \/ exists dir, Join (l ++ [k]) sep = dir ++ sep ++ k.
Proof.
  induction l as [|e l IH]; [left; reflexivity|]. right.
  cbn [app Join].
  destruct (l ++ [k])%list as [|x xs] eqn:E; [destruct l; discriminate|].
  destruct IH as [->|[dir ->]].
  - exists e. reflexivity.
  - exists (e ++ sep ++ dir). rewrite !append_assoc. reflexivity.
Qed.

(** X11.  The cache is flat: the cache path is the cache key alone, or a
    directory, a slash and the cache key; the key is the last element of
    the path, whatever the cache directory is. *)
Theorem cache_path_is_dir_slash_key (cacheDir blobpath : string) :
  filepathJoin cacheDir (cacheKeyOf blobpath) = cacheKeyOf blobpath \/
  exists dir,
    filepathJoin cacheDir (cacheKeyOf blobpath) = dir ++ "/" ++ cacheKeyOf blobpath.
Proof.
  destruct (cacheKeyOf_hex blobpath) as [Hh Hne].
  set (key := cacheKeyOf blobpath) in *.
  assert (HC : forall path elems, path <> "" ->
            Split path Separator = (elems ++ [key])%list ->
            Clean path = key \/ exists dir, Clean path = dir ++ "/" ++ key).
  { intros path elems Hp Hs. unfold Clean. destruct path as [|c rest]; [contradiction|].
    rewrite Hs, cleanElems_app, (cleanElems_key _ key _ Hne Hh). cbn [rev].
    destruct (Join_last (rev (cleanElems (Ascii.eqb c Separator) elems [])) key "/")
      as [->|[dir ->]].
    - destruct (Ascii.eqb c Separator).
      + right. exists "". reflexivity.
      + apply String.eqb_neq in Hne. rewrite Hne. left. reflexivity.
    - destruct (Ascii.eqb c Separator).
      + right. exists (String Separator dir). reflexivity.
      + destruct (String.eqb (dir ++ "/" ++ key) "") eqn:E.
        * apply String.eqb_eq in E. destruct dir; discriminate.
        * right. exists dir. reflexivity. }
  unfold filepathJoin. destruct (String.eqb cacheDir "") eqn:Ed; cbn [negb].
  - apply String.eqb_neq in Hne as E. rewrite E. cbn [negb].
    apply (HC key [] Hne). apply Split_one; [reflexivity|exact Hh].
  - apply (HC _ (Split cacheDir Separator)).
    + destruct cacheDir; discriminate.
    + rewrite Split_append, (Split_one key); [reflexivity|reflexivity|exact Hh].
Qed.

(** X12.  A temporary name is never a cache path: not that of the same
    identifier, not that of another, under no cache directory and for no
    suffix. *)
Theorem tmp_name_is_no_cache_path (cacheDir cacheDir' blobpath blobpath' uuid : string) :
  tmpFilenameOf (filepathJoin cacheDir (cacheKeyOf blobpath)) uuid
  <> filepathJoin cacheDir' (cacheKeyOf blobpath').
Proof.
  intros H. refine (cache_path_not_tmp _ _ uuid _ (eq_sym H)).
  exists cacheDir', blobpath'. reflexivity.
Qed.

End NamesMore.

(** ** More on a cache miss *)

Section MissMore.
Import Go Sys Load OS Spec Cache Worlds More.

(** [populate], in full. *)
Lemma run_populate_eq cacheDir cachePath contents w :
  let tmp := tmpNameIn w cachePath in
  let w1 := nextUuid w in
  let head := [Ev (MkdirAll cacheDir ModePerm) (fault w _ (MkdirAll cacheDir ModePerm));
               Ev UuidNewString (uuids w (uuidCount w))] in
  run (populate cacheDir cachePath contents) w =
  match fault w _ (WriteFile tmp contents ModePerm) with
  | Some e =>
      (("", Some e), setFiles (writeShort w tmp contents) w1,
       (head ++ [Ev (WriteFile tmp contents ModePerm) (Some e)])%list)
  | None =>
      let w2 := setFiles (<[tmp := contents]> (files w)) w1 in
      match fault w _ (Rename tmp cachePath) with
      | Some e =>
          ((contents, Some e), w2,
           (head ++ [Ev (WriteFile tmp contents ModePerm) None;
                     Ev (Rename tmp cachePath) (Some e)])%list)
      | None =>
          ((contents, None),
           setFiles (<[cachePath := contents]> (delete tmp (<[tmp := contents]> (files w)))) w2,
           (head ++ [Ev (WriteFile tmp contents ModePerm) None;
                     Ev (Rename tmp cachePath) None])%list)
      end
  end.
Proof.
  cbv zeta. unfold populate, tmpNameIn. cbn [bind trigger run perform].
  change (fault (nextUuid w)) with (fault w).
  destruct (fault w _ (WriteFile _ contents ModePerm)) as [e|]; [reflexivity|].
  cbn [bind trigger run perform fst snd].
  change (fault (setFiles _ (nextUuid w))) with (fault w).
  change (files (setFiles ?f _)) with f.
  destruct (fault w _ (Rename _ cachePath)) as [e|]; [reflexivity|].
  rewrite lookup_insert_eq. reflexivity.
Qed.

(** [readFileCachedIn] on a miss, in full. *)
Lemma run_miss_eq cacheDir blobpath w serr :
  cacheDir <> "" ->
  let cachePath := filepathJoin cacheDir (cacheKeyOf blobpath) in
  fst (perform (Stat cachePath) w) = Some serr ->
  run (readFileCachedIn cacheDir blobpath) w =
  let '(res, w1, t1) := run (readFile blobpath) w in
  match res with
  | (_, Some e) => (("", Some e), w1, Ev (Stat cachePath) (Some serr) :: t1)
  | (contents, None) =>
      let '(r, w2, t2) := run (populate cacheDir cachePath contents) w1 in
      (r, w2, Ev (Stat cachePath) (Some serr) :: (t1 ++ t2)%list)
  end.
Proof.
  intros Hd cachePath Hs. unfold readFileCachedIn.
  apply String.eqb_neq in Hd. rewrite Hd. fold cachePath.
  cbn [bind run trigger].
  assert (Hw : snd (perform (Stat cachePath) w) = w).
  { cbn [perform]. destruct (fault w _ (Stat _)); [reflexivity|].
    destruct (files w !! _); reflexivity. }
  destruct (perform (Stat cachePath) w) as [r w0].
  cbn [fst snd] in Hs, Hw. subst r w0.
  rewrite run_bind.
  destruct (run (readFile blobpath) w) as [[[contents err] w1] t1].
  destruct err as [e|]; cbn [run].
  - rewrite app_nil_r. reflexivity.
  - destruct (run (populate _ _ contents) w1) as [[b w2] t2]. reflexivity.
Qed.

(** A call on a miss, with what is before the cache directory is known. *)
Lemma run_readFileCached_miss w blobpath serr :
  fst (perform (Stat (cachePathOf w blobpath)) w) = Some serr ->
  exists tr0, quiet tr0 /\
  run (readFileCached blobpath) w =
  let '(res, w1, t1) := run (readFile blobpath) w in
  match res with
  | (_, Some e) =>
      (("", Some e), w1, (tr0 ++ Ev (Stat (cachePathOf w blobpath)) (Some serr) :: t1)%list)
  | (contents, None) =>
      let '(r, w2, t2) :=
        run (populate (cacheDirOf w) (cachePathOf w blobpath) contents) w1 in
      (r, w2, (tr0 ++ Ev (Stat (cachePathOf w blobpath)) (Some serr) :: t1 ++ t2)%list)
  end.
Proof.
  intros Hs. destruct (run_readFileCached w blobpath) as (tr0 & Hq & ->).
  exists tr0. split; [exact Hq|].
  rewrite (run_miss_eq (cacheDirOf w) blobpath w serr (cacheDirOf_nonempty w) Hs).
  fold (cachePathOf w blobpath).
  destruct (run (readFile blobpath) w) as [[[contents [e|]] w1] t1]; [reflexivity|].
  destruct (run (populate _ _ contents) w1) as [[r w2] t2]. reflexivity.
Qed.

Lemma quiet_no_write tr : quiet tr -> Forall (fun ev => isWrite ev = false) tr.
Proof. intros H. eapply Forall_impl; [exact H|]. intros ev Hev. apply Hev. Qed.

Lemma quiet_no_rename tr : quiet tr -> Forall (fun ev => isRename ev = false) tr.
Proof.
  intros H. eapply Forall_impl; [exact H|]. intros [R c r] (_ & Hw & _).
  destruct c; try reflexivity. discriminate Hw.
Qed.

Lemma no_write_no_rename tr :
  Forall (fun ev => isWrite ev = false) tr -> Forall (fun ev => isRename ev = false) tr.
Proof.
  intros H. eapply Forall_impl; [exact H|]. intros [R c r] Hw.
  destruct c; try reflexivity. discriminate Hw.
Qed.

Lemma tmpFilenameOf_longer cachePath uuid : tmpFilenameOf cachePath uuid <> cachePath.
Proof.
  unfold tmpFilenameOf. intros H. apply (f_equal String.length) in H.
  rewrite !length_append in H. cbn [String.length] in H. lia.
Qed.

(** X13.  On a miss, when the Source Reader fails, the call returns its
    error with no bytes, and nothing is written: no directory made, no file
    written or renamed, the files as they were. *)
Theorem miss_fetch_fails (w : World) (blobpath partial : string) (serr e : error) :
  fst (perform (Stat (cachePathOf w blobpath)) w) = Some serr ->
  value (run (readFile blobpath) w) = (partial, Some e) ->
  let x := run (readFileCached blobpath) w in
  value x = ("", Some e) /\
  files (after x) = files w /\
  Forall (fun ev => isWrite ev = false) (trace x).
Proof.
  intros Hs Hf. cbv zeta.
  destruct (run_readFileCached_miss w blobpath serr Hs) as (tr0 & Hq & ->).
  pose proof (run_readFile_frame blobpath w) as (_ & _ & Hfiles & _).
  pose proof (readFile_no_write blobpath w) as Hnw.
  destruct (run (readFile blobpath) w) as [[[contents err] w1] t1].
  unfold value, after, trace in *. cbn [fst snd] in *. injection Hf as -> ->.
  cbn [fst snd]. split; [reflexivity|]. split; [exact Hfiles|].
  apply Forall_app. split; [exact (quiet_no_write _ Hq)|].
  constructor; [reflexivity|exact Hnw].
Qed.

(** X13 at a rank file that is not there. *)
Lemma miss_fetch_fails_witness :
  value (run (readFileCached "/data/none.tiktoken") (diskWorld false))
    = ("", Some (notExist "open" "/data/none.tiktoken")) /\
  files (after (run (readFileCached "/data/none.tiktoken") (diskWorld false)))
    = files (diskWorld false).
Proof.
  pose proof (miss_fetch_fails (diskWorld false) "/data/none.tiktoken" ""
                (notExist "stat" (cachePathOf (diskWorld false) "/data/none.tiktoken"))
                (notExist "open" "/data/none.tiktoken")) as H.
  cbv zeta in H.
  destruct H as (Hv & Hfiles & _); [vm_compute; reflexivity|vm_compute; reflexivity|].
  split; [exact Hv|exact Hfiles].
Defined.


(** The run of a miss after a fetch that succeeds. *)
Lemma run_miss_fetched w blobpath serr contents :
  fst (perform (Stat (cachePathOf w blobpath)) w) = Some serr ->
  value (run (readFile blobpath) w) = (contents, None) ->
  exists tr0 w1 t1,
    quiet tr0 /\ sameButHandles w w1 /\
    Forall (fun ev => isWrite ev = false) t1 /\
    run (readFileCached blobpath) w =
    let '(r, w2, t2) :=
      run (populate (cacheDirOf w) (cachePathOf w blobpath) contents) w1 in
    (r, w2, (tr0 ++ Ev (Stat (cachePathOf w blobpath)) (Some serr) :: t1 ++ t2)%list).
Proof.
  intros Hs Hf.
  destruct (run_readFileCached_miss w blobpath serr Hs) as (tr0 & Hq & ->).
  pose proof (run_readFile_frame blobpath w) as Hframe.
  pose proof (readFile_no_write blobpath w) as Hnw.
  destruct (run (readFile blobpath) w) as [[[c err] w1] t1].
  unfold value, after, trace in *. cbn [fst snd] in *. injection Hf as -> ->.
  exists tr0, w1, t1. auto.
Qed.

(** X14.  On a miss, when the fetch succeeds and the temporary file cannot
    be written, the call returns the error of the write with no bytes and
    renames nothing: the cache path is as it was, and what was written of
    the temporary file stays on disk. *)
Theorem miss_write_fails (w : World) (blobpath contents : string) (serr e : error) :
  let cachePath := cachePathOf w blobpath in
  let tmp := tmpNameIn w cachePath in
  fst (perform (Stat cachePath) w) = Some serr ->
  value (run (readFile blobpath) w) = (contents, None) ->
  fault w _ (WriteFile tmp contents ModePerm) = Some e ->
  let x := run (readFileCached blobpath) w in
  value x = ("", Some e) /\
  Forall (fun ev => isRename ev = false) (trace x) /\
  files (after x) !! cachePath = files w !! cachePath /\
  files (after x) !! tmp =
    match short w with
    | Some n => Some (takeBytes n contents)
    | None => files w !! tmp
    end.
Proof.
  cbv zeta. intros Hs Hf Hw.
  destruct (run_miss_fetched w blobpath serr contents Hs Hf)
    as (tr0 & w1 & t1 & Hq & Hframe & Hnw & ->).
  destruct Hframe as (_ & _ & Hfiles & _ & Hu & Hc & Hfa & Hsh).
  rewrite run_populate_eq. unfold tmpNameIn in *. rewrite Hu, Hc, Hfa, Hw.
  unfold value, after, trace. cbn [fst snd files setFiles].
  unfold writeShort. cbn [short files nextUuid]. rewrite Hsh, Hfiles.
  split; [reflexivity|]. split; [|split].
  - apply Forall_app. split; [exact (quiet_no_rename _ Hq)|].
    constructor; [reflexivity|].
    apply Forall_app. split; [exact (no_write_no_rename _ Hnw)|]. repeat constructor.
  - destruct (short w); [|reflexivity].
    apply lookup_insert_ne. apply tmpFilenameOf_longer.
  - destruct (short w); [apply lookup_insert_eq|reflexivity].
Qed.

(** X14 at a disk that takes three bytes and no more. *)
Lemma miss_write_fails_witness :
  let w := worldWith rankFile writeFails (Some 3%nat) in
  let x := run (readFileCached "/data/cl100k.tiktoken") w in
  value x = ("", Some (denied "write")) /\
  files (after x) !! tmpNameIn w (cachePathOf w "/data/cl100k.tiktoken") = Some "QUJ".
Proof.
  pose proof (miss_write_fails (worldWith rankFile writeFails (Some 3%nat))
                "/data/cl100k.tiktoken" "QUJD 1"
                (notExist "stat" (cachePathOf (worldWith rankFile writeFails (Some 3%nat))
                                    "/data/cl100k.tiktoken"))
                (denied "write")) as H.
  cbv zeta in H.
  destruct H as (Hv & _ & _ & Ht);
    [vm_compute; reflexivity|vm_compute; reflexivity|reflexivity|].
  split; [exact Hv|exact Ht].
Defined.

(** X15.  On a miss, when the fetch succeeds, the temporary file is written
    and the rename fails, the cache path is as it was and the temporary
    file stays on disk with the whole contents. *)
Theorem miss_rename_fails_leaves_tmp (w : World) (blobpath contents : string)
    (serr e : error) :
  let cachePath := cachePathOf w blobpath in
  let tmp := tmpNameIn w cachePath in
  fst (perform (Stat cachePath) w) = Some serr ->
  value (run (readFile blobpath) w) = (contents, None) ->
  fault w _ (WriteFile tmp contents ModePerm) = None ->
  fault w _ (Rename tmp cachePath) = Some e ->
  let x := run (readFileCached blobpath) w in
  files (after x) !! cachePath = files w !! cachePath /\
  files (after x) !! tmp = Some contents.
Proof.
  cbv zeta. intros Hs Hf Hw Hr.
  destruct (run_miss_fetched w blobpath serr contents Hs Hf)
    as (tr0 & w1 & t1 & Hq & Hframe & Hnw & ->).
  destruct Hframe as (_ & _ & Hfiles & _ & Hu & Hc & Hfa & Hsh).
  rewrite run_populate_eq. unfold tmpNameIn in *. rewrite Hu, Hc, Hfa, Hw, Hr.
  unfold after. cbn [fst snd files setFiles]. rewrite Hfiles.
  split; [|apply lookup_insert_eq].
  apply lookup_insert_ne. apply tmpFilenameOf_longer.
Qed.

(** X15 at a disk where the rename is refused. *)
Lemma miss_rename_fails_leaves_tmp_witness :
  let w := diskWorld true in
  let x := run (readFileCached "/data/cl100k.tiktoken") w in
  files (after x) !! cachePathOf w "/data/cl100k.tiktoken" = None /\
  files (after x) !! tmpNameIn w (cachePathOf w "/data/cl100k.tiktoken") = Some "QUJD 1".
Proof.
  pose proof (miss_rename_fails_leaves_tmp (diskWorld true) "/data/cl100k.tiktoken" "QUJD 1"
                (notExist "stat" (cachePathOf (diskWorld true) "/data/cl100k.tiktoken"))
                (OSError "rename" "" "permission denied")) as H.
  cbv zeta in H.
  destruct H as (Hc & Ht);
    [vm_compute; reflexivity|vm_compute; reflexivity|reflexivity|reflexivity|].
  split; [rewrite Hc; vm_compute; reflexivity|exact Ht].
Defined.

(** X16.  A miss that succeeds moves the temporary file: after the call no
    file has the temporary name, and the cache path holds the bytes the
    call returns. *)
Theorem miss_success_moves_tmp (w : World) (blobpath b : string) (serr : error) :
  let cachePath := cachePathOf w blobpath in
  let tmp := tmpNameIn w cachePath in
  fst (perform (Stat cachePath) w) = Some serr ->
  let x := run (readFileCached blobpath) w in
  value x = (b, None) ->
  files (after x) !! tmp = None /\ files (after x) !! cachePath = Some b.
Proof.
  cbv zeta. intros Hs Hv.
  destruct (run_readFileCached_miss w blobpath serr Hs) as (tr0 & Hq & Hrun).
  rewrite Hrun in Hv |- *. clear Hrun.
  pose proof (run_readFile_frame blobpath w) as (_ & _ & Hfiles & _ & Hu & Hc & Hfa & Hsh).
  destruct (run (readFile blobpath) w) as [[[contents [e|]] w1] t1];
    unfold value, after in *; cbn [fst snd] in *; [discriminate|].
  rewrite run_populate_eq in Hv |- *. unfold tmpNameIn in *. rewrite Hu, Hc, Hfa in *.
  destruct (fault w _ (WriteFile _ contents ModePerm)); [discriminate|].
  destruct (fault w _ (Rename _ _)); [discriminate|].
  cbn [fst snd files setFiles] in *. injection Hv as ->.
  split; [|apply lookup_insert_eq].
  rewrite lookup_insert_ne by (intros H; exact (tmpFilenameOf_longer _ _ (eq_sym H))).
  apply lookup_delete_eq.
Qed.

(** X16 at a disk with the rank file and no cache yet. *)
Lemma miss_success_moves_tmp_witness :
  let w := diskWorld false in
  let x := run (readFileCached "/data/cl100k.tiktoken") w in
  files (after x) !! tmpNameIn w (cachePathOf w "/data/cl100k.tiktoken") = None /\
  files (after x) !! cachePathOf w "/data/cl100k.tiktoken" = Some "QUJD 1".
Proof.
  refine (miss_success_moves_tmp (diskWorld false) "/data/cl100k.tiktoken" "QUJD 1"
            (notExist "stat" (cachePathOf (diskWorld false) "/data/cl100k.tiktoken")) _ _);
    vm_compute; reflexivity.
Defined.


(** A call when [os.Stat] reports no error. *)
Lemma run_readFileCached_hit w blobpath :
  fst (perform (Stat (cachePathOf w blobpath)) w) = None ->
  exists tr0, quiet tr0 /\
  run (readFileCached blobpath) w =
  (fst (perform (ReadFile (cachePathOf w blobpath)) w), w,
   (tr0 ++ [Ev (Stat (cachePathOf w blobpath)) None;
            Ev (ReadFile (cachePathOf w blobpath))
               (fst (perform (ReadFile (cachePathOf w blobpath)) w))])%list).
Proof.
  intros Hs. destruct (run_readFileCached w blobpath) as (tr0 & Hq & ->).
  exists tr0. split; [exact Hq|].
  unfold readFileCachedIn.
  pose proof (cacheDirOf_nonempty w) as Hd. apply String.eqb_neq in Hd. rewrite Hd.
  fold (cachePathOf w blobpath). cbn [bind run trigger].
  assert (Hw : snd (perform (Stat (cachePathOf w blobpath)) w) = w).
  { cbn [perform]. destruct (fault w _ (Stat _)); [reflexivity|].
    destruct (files w !! _); reflexivity. }
  destruct (perform (Stat (cachePathOf w blobpath)) w) as [r w0].
  cbn [fst snd] in Hs, Hw. subst r w0. cbn [run trigger].
  assert (Hw : snd (perform (ReadFile (cachePathOf w blobpath)) w) = w).
  { cbn [perform]. destruct (files w !! _); [|reflexivity].
    destruct (fault w _ (ReadFile _)); reflexivity. }
  destruct (perform (ReadFile (cachePathOf w blobpath)) w) as [r w0].
  cbn [fst snd] in Hw |- *. subst w0. reflexivity.
Qed.

(** X17.  Whatever a call comes to, it leaves every file but two as it was:
    the cache path of its identifier and the temporary name it makes. *)
Theorem readFileCached_touches_two_names (w : World) (blobpath path : string) :
  path <> cachePathOf w blobpath ->
  path <> tmpNameIn w (cachePathOf w blobpath) ->
  files (after (run (readFileCached blobpath) w)) !! path = files w !! path.
Proof.
  intros Hc Ht.
  destruct (fst (perform (Stat (cachePathOf w blobpath)) w)) as [serr|] eqn:Hs.
  - destruct (run_readFileCached_miss w blobpath serr Hs) as (tr0 & _ & ->).
    pose proof (run_readFile_frame blobpath w) as (_ & _ & Hfiles & _ & Hu & Hcn & Hfa & Hsh).
    destruct (run (readFile blobpath) w) as [[[contents [e|]] w1] t1];
      unfold after in *; cbn [fst snd] in *; [rewrite Hfiles; reflexivity|].
    rewrite run_populate_eq. unfold tmpNameIn in *. rewrite Hu, Hcn, Hfa.
    destruct (fault w _ (WriteFile _ contents ModePerm)).
    + cbn [fst snd files setFiles]. unfold writeShort. cbn [short files nextUuid].
      rewrite Hsh, Hfiles. destruct (short w); [|reflexivity].
      apply lookup_insert_ne. congruence.
    + destruct (fault w _ (Rename _ _)); cbn [fst snd files setFiles]; rewrite Hfiles.
      * apply lookup_insert_ne. congruence.
      * rewrite lookup_insert_ne by congruence.
        rewrite lookup_delete_ne by congruence.
        apply lookup_insert_ne. congruence.
  - destruct (run_readFileCached_hit w blobpath Hs) as (tr0 & _ & ->). reflexivity.
Qed.

(** X17 at the rank file, which the call that caches it leaves alone. *)
Lemma readFileCached_touches_two_names_witness :
  let w := diskWorld false in
  "/data/cl100k.tiktoken" <> cachePathOf w "/data/cl100k.tiktoken" /\
  files (after (run (readFileCached "/data/cl100k.tiktoken") w)) !! "/data/cl100k.tiktoken"
    = Some "QUJD 1".
Proof.
  assert (H1 : "/data/cl100k.tiktoken"
               <> cachePathOf (diskWorld false) "/data/cl100k.tiktoken")
    by (vm_compute; discriminate).
  split; [exact H1|].
  rewrite (readFileCached_touches_two_names (diskWorld false) "/data/cl100k.tiktoken"
             "/data/cl100k.tiktoken" H1); [reflexivity|].
  vm_compute. discriminate.
Defined.

(** X18.  Any error of [os.Stat] is a miss, also when the entry is there:
    the Source Reader is called, and when the call succeeds the entry holds
    what the Source Reader returned, not what it held. *)
Theorem stat_error_is_a_miss (w : World) (blobpath old : string) (e : error) :
  files w !! cachePathOf w blobpath = Some old ->
  fault w _ (Stat (cachePathOf w blobpath)) = Some e ->
  let x := run (readFileCached blobpath) w in
  Exists (fun ev => isFetch ev = true) (trace x) /\
  (forall b, value x = (b, None) ->
     value (run (readFile blobpath) w) = (b, None) /\
     files (after x) !! cachePathOf w blobpath = Some b).
Proof.
  intros Hold Hf. cbv zeta.
  assert (Hs : fst (perform (Stat (cachePathOf w blobpath)) w) = Some e).
  { cbn [perform]. rewrite Hf. reflexivity. }
  destruct (run_readFileCached_miss w blobpath e Hs) as (tr0 & _ & Hrun).
  rewrite Hrun. clear Hrun.
  destruct (readFile_starts_fetch blobpath w) as (ev & tr & Htr & Hev).
  pose proof (run_readFile_frame blobpath w) as (_ & _ & Hfiles & _ & Hu & Hcn & Hfa & Hsh).
  destruct (run (readFile blobpath) w) as [[[contents [e'|]] w1] t1];
    unfold value, after, trace in *; cbn [fst snd] in *; subst t1.
  - split; [|discriminate].
    apply Exists_app. right. right. left. exact Hev.
  - rewrite run_populate_eq. unfold tmpNameIn. rewrite Hu, Hcn, Hfa.
    destruct (fault w _ (WriteFile _ contents ModePerm)).
    + cbn [fst snd]. split; [|discriminate].
      apply Exists_app. right. right. left. exact Hev.
    + destruct (fault w _ (Rename _ _)); cbn [fst snd files setFiles].
      * split; [|discriminate]. apply Exists_app. right. right. left. exact Hev.
      * split; [apply Exists_app; right; right; left; exact Hev|].
        intros b [= <-]. split; [reflexivity|apply lookup_insert_eq].
Qed.

(** X18 at a stale entry that cannot be examined. *)
Lemma stat_error_is_a_miss_witness :
  let w := worldWith staleCache statFails None in
  let x := run (readFileCached "/data/cl100k.tiktoken") w in
  files w !! cachePathOf w "/data/cl100k.tiktoken" = Some "QUJD 0" /\
  value x = ("QUJD 1", None) /\
  files (after x) !! cachePathOf w "/data/cl100k.tiktoken" = Some "QUJD 1".
Proof.
  assert (Hold : files (worldWith staleCache statFails None)
                   !! cachePathOf (worldWith staleCache statFails None)
                        "/data/cl100k.tiktoken" = Some "QUJD 0")
    by (vm_compute; reflexivity).
  assert (Hv : value (run (readFileCached "/data/cl100k.tiktoken")
                        (worldWith staleCache statFails None)) = ("QUJD 1", None))
    by (vm_compute; reflexivity).
  split; [exact Hold|]. split; [exact Hv|].
  exact (proj2 (proj2 (stat_error_is_a_miss _ "/data/cl100k.tiktoken" "QUJD 0"
                         (denied "stat") Hold eq_refl) "QUJD 1" Hv)).
Defined.

(** X19.  On a hit, when the entry cannot be read, the call returns the
    error of the read: it does not fall back on the Source Reader and
    changes nothing. *)
Theorem hit_read_fails (w : World) (blobpath data : string) (e : error) :
  files w !! cachePathOf w blobpath = Some data ->
  fault w _ (Stat (cachePathOf w blobpath)) = None ->
  fault w _ (ReadFile (cachePathOf w blobpath)) = Some e ->
  let x := run (readFileCached blobpath) w in
  value x = (readShort w data, Some e) /\ after x = w /\
  Forall (fun ev => isFetch ev = false) (trace x).
Proof.
  intros Hfile Hs Hr. cbv zeta.
  assert (Hstat : fst (perform (Stat (cachePathOf w blobpath)) w) = None).
  { cbn [perform]. rewrite Hs, Hfile. reflexivity. }
  destruct (run_readFileCached_hit w blobpath Hstat) as (tr0 & Hq & ->).
  unfold value, after, trace. cbn [fst snd perform]. rewrite Hfile, Hr.
  split; [reflexivity|]. split; [reflexivity|].
  apply Forall_app. split.
  - eapply Forall_impl; [exact Hq|]. intros ev H. apply H.
  - repeat constructor.
Qed.

(** X19 at an entry that cannot be read, the rank file being there. *)
Lemma hit_read_fails_witness :
  value (run (readFileCached "/data/cl100k.tiktoken")
           (worldWith staleCache readFileFails None))
    = ("", Some (denied "read")).
Proof.
  refine (proj1 (hit_read_fails (worldWith staleCache readFileFails None)
                   "/data/cl100k.tiktoken" "QUJD 0" (denied "read") _ eq_refl eq_refl)).
  vm_compute. reflexivity.
Defined.

End MissMore.

(** ** More on calls that run at the same time *)

Section ConcMore.
Import Go Sys Load OS Spec Cache Conc ConcInv Sched Worlds Run More.

(** A step changes files under temporary names and under cache paths only,
    and leaves a file where it changes a cache path. *)
Lemma step_changes files0 ids c c' path :
  Inv files0 ids c -> step c c' ->
  files (world c') !! path <> files (world c) !! path ->
  (exists p u, path = tmpFilenameOf p u) \/
  (isCachePath path /\ is_Some (files (world c') !! path)).
Proof.
  intros HI Hs. destruct Hs as
    [ w w' ts Hf Hh
    | i id evs R cl k w ts Hi Ha
    | i id evs k w ts u Hi Hlen Hfresh
    | i id evs name data perm k w ts e Hi
    | i id evs name data perm k w ts Hi
    | i id evs name data chunk rest perm k w ts Hi
    | i id evs name data rest perm k w ts e Hi
    | i id evs name data perm k w ts Hi ];
    cbn [world]; intros E; try contradiction.
  - rewrite Hf in E. contradiction.
  - pose proof (inv_threads _ _ _ HI i _ Hi) as Ht. cbn [world] in Ht.
    pose proof (perform_files cl w) as Hf.
    destruct cl; try discriminate Ha; try (rewrite Hf in E; contradiction).
    unfold tinv in Ht. cbn [st ident Conc.evs] in Ht.
    destruct Ht as (d & u & data & -> & -> & _ & _ & _ & Hfile & _).
    cbn [perform] in E |- *.
    destruct (fault w _ (Rename _ _)); [contradiction|].
    rewrite Hfile in E |- *. cbn [snd files setFiles] in E |- *.
    destruct (decide (path = pathIn d id)) as [->|Hn1].
    + right. split; [eexists _, _; reflexivity|].
      rewrite lookup_insert_eq. eexists; reflexivity.
    + rewrite lookup_insert_ne in E by congruence.
      destruct (decide (path = tmpFilenameOf (pathIn d id) u)) as [->|Hn2]; [left; eauto|].
      rewrite lookup_delete_ne in E by congruence. contradiction.
  - pose proof (inv_threads _ _ _ HI i _ Hi) as Ht. cbn [world] in Ht.
    unfold tinv in Ht. cbn [st ident Conc.evs tok] in Ht.
    destruct Ht as (d & u & -> & _).
    cbn [files setFiles] in E. left.
    destruct (decide (path = tmpFilenameOf (pathIn d id) u)) as [->|Hn]; [eauto|].
    rewrite lookup_insert_ne in E by congruence. contradiction.
  - pose proof (inv_threads _ _ _ HI i _ Hi) as Ht. cbn [world] in Ht.
    unfold tinv in Ht. cbn [st ident Conc.evs tok] in Ht.
    destruct Ht as ((d & u & -> & _) & _).
    cbn [files setFiles] in E. unfold writeThrough in E. left.
    destruct (files w !! tmpFilenameOf (pathIn d id) u); [|contradiction].
    destruct (decide (path = tmpFilenameOf (pathIn d id) u)) as [->|Hn]; [eauto|].
    rewrite lookup_insert_ne in E by congruence. contradiction.
Qed.

(** X20.  Two goroutines never hold one temporary file: in every state, the
    temporary names that two goroutines are writing or are about to rename
    are different. *)
Theorem tmp_names_are_distinct (w0 : World) (ids : list string) (c : config)
    (i j : nat) (ti tj : thread) (name name' : string) :
  reachable (initial w0 ids) c ->
  pool c !! i = Some ti -> pool c !! j = Some tj ->
  i <> j ->
  tmpOf ti = Some name -> tmpOf tj = Some name' ->
  name <> name'.
Proof.
  intros Hr Hi Hj Hne Hti Htj ->. apply reachable_Inv in Hr as [_ Ht _ Hu].
  destruct (tinv_tmp _ _ _ (Ht i ti Hi) Hti) as (p & u & -> & Hl & Hd).
  destruct (tinv_tmp _ _ _ (Ht j tj Hj) Htj) as (p' & u' & Heq & Hl' & Hd').
  apply tmpFilenameOf_inj in Heq; [|congruence]. subst u'.
  exact (Hne (Hu i j ti tj u Hi Hj Hd Hd')).
Qed.

(** X20 at two calls for one identifier, the first in the middle of its
    write and the second about to rename. *)
Lemma tmp_names_are_distinct_witness :
  exists c,
    play twoCalls twoCallsBeforeRename = Some c /\
    tmpOf <$> pool c !! 0%nat = Some (Some (tmpFilenameOf twoCallsPath aUuid)) /\
    tmpOf <$> pool c !! 1%nat = Some (Some (tmpFilenameOf twoCallsPath otherUuid)) /\
    tmpFilenameOf twoCallsPath aUuid <> tmpFilenameOf twoCallsPath otherUuid.
Proof.
  assert (Hfacts :
    match play twoCalls twoCallsBeforeRename with
    | Some c => Some (tmpOf <$> pool c !! 0%nat, tmpOf <$> pool c !! 1%nat)
    | None => None
    end = Some (Some (Some (tmpFilenameOf twoCallsPath aUuid)),
                Some (Some (tmpFilenameOf twoCallsPath otherUuid))))
    by (vm_compute; reflexivity).
  destruct (play twoCalls twoCallsBeforeRename) as [c|] eqn:E; [|discriminate Hfacts].
  injection Hfacts as H0 H1.
  assert (Hr : reachable (initial (diskWorld false)
                            ["/data/cl100k.tiktoken"; "/data/cl100k.tiktoken"]) c)
    by exact (play_reachable twoCalls _ _ _ (reach_start _) E).
  exists c. split; [reflexivity|]. split; [exact H0|]. split; [exact H1|].
  destruct (pool c !! 0%nat) as [t0|] eqn:E0; [|discriminate H0].
  destruct (pool c !! 1%nat) as [t1|] eqn:E1; [|discriminate H1].
  injection H0 as H0. injection H1 as H1.
  refine (tmp_names_are_distinct _ _ c 0%nat 1%nat t0 t1 _ _ Hr E0 E1 _ H0 H1).
  discriminate.
Defined.

(** X21.  A rename publishes a whole file: in every state, a goroutine that
    is about to rename renames a temporary file that holds the complete
    bytes its Source Reader returned, to the cache path of its identifier,
    and then returns these bytes with the error of the rename. *)
Theorem rename_publishes_fetched (w0 : World) (ids : list string) (c : config)
    (i : nat) (t : thread) (oldpath newpath : string) (k : option error -> Prog Res) :
  reachable (initial w0 ids) c ->
  pool c !! i = Some t ->
  st t = Running (Vis (Rename oldpath newpath) k) ->
  exists cacheDir data,
    newpath = filepathJoin cacheDir (cacheKeyOf (ident t)) /\
    files (world c) !! oldpath = Some data /\
    fetched (ident t) (evs t) data /\
    forall rerr, k rerr = Ret (data, rerr).
Proof.
  intros Hr Hi Hst. apply reachable_Inv in Hr as [_ Ht _ _].
  specialize (Ht i t Hi). unfold tinv in Ht. rewrite Hst in Ht.
  destruct Ht as (d & u & data & _ & -> & _ & _ & Hf & Hfile & Hk).
  exists d, data. auto.
Qed.

(** X22.  The calls remove no cache entry: a step from a state the calls
    can come to leaves a file at every cache path that had one. *)
Theorem cache_entries_stay (w0 : World) (ids : list string) (c c' : config)
    (path : string) :
  reachable (initial w0 ids) c -> step c c' ->
  isCachePath path ->
  is_Some (files (world c) !! path) -> is_Some (files (world c') !! path).
Proof.
  intros Hr Hs Hp Hsome. apply reachable_Inv in Hr.
  destruct (decide (files (world c') !! path = files (world c) !! path)) as [E|E];
    [rewrite E; exact Hsome|].
  destruct (step_changes _ _ _ _ _ Hr Hs E) as [(p & u & ->)|[_ H]]; [|exact H].
  exfalso. exact (cache_path_not_tmp _ p u Hp eq_refl).
Qed.



(** X21 at the second of two calls, about to rename. *)
Lemma rename_publishes_fetched_witness :
  exists c,
    play twoCalls twoCallsBeforeRename = Some c /\
    st <$> pool c !! 1%nat
      = Some (Running (Vis (Rename (tmpFilenameOf twoCallsPath otherUuid) twoCallsPath)
                           (fun rerr => Ret ("QUJD 1", rerr)))) /\
    files (world c) !! tmpFilenameOf twoCallsPath otherUuid = Some "QUJD 1".
Proof.
  assert (Hfacts :
    match play twoCalls twoCallsBeforeRename with
    | Some c => Some (st <$> pool c !! 1%nat)
    | None => None
    end = Some (Some (Running (Vis (Rename (tmpFilenameOf twoCallsPath otherUuid)
                                      twoCallsPath)
                                   (fun rerr => Ret ("QUJD 1", rerr))))))
    by (vm_compute; reflexivity).
  destruct (play twoCalls twoCallsBeforeRename) as [c|] eqn:E; [|discriminate Hfacts].
  injection Hfacts as H1.
  assert (Hr : reachable (initial (diskWorld false)
                            ["/data/cl100k.tiktoken"; "/data/cl100k.tiktoken"]) c)
    by exact (play_reachable twoCalls _ _ _ (reach_start _) E).
  exists c. split; [reflexivity|]. split; [exact H1|].
  destruct (pool c !! 1%nat) as [t1|] eqn:E1; [|discriminate H1].
  injection H1 as H1.
  destruct (rename_publishes_fetched _ _ c 1%nat t1 _ _ _ Hr E1 H1)
    as (d & data & _ & Hfile & _ & Hk).
  specialize (Hk None). injection Hk as <-. exact Hfile.
Defined.

Lemma option_true {A : Type} (o : option A) :
  match o with Some _ => true | None => false end = true -> exists a, o = Some a.
Proof. destruct o as [a|]; [exists a; reflexivity|discriminate]. Qed.

(** X22 at the entry the second call made, when the first writes on. *)
Lemma cache_entries_stay_witness :
  exists c c',
    play twoCalls twoCallsSchedule = Some c /\
    advance c twoCallsOneMore = Some c' /\
    files (world c) !! twoCallsPath = Some "QUJD 1" /\
    is_Some (files (world c') !! twoCallsPath).
Proof.
  assert (Hfacts :
    match play twoCalls twoCallsSchedule with
    | Some c => Some (files (world c) !! twoCallsPath,
                      match advance c twoCallsOneMore with
                      | Some _ => true
                      | None => false
                      end)
    | None => None
    end = Some (Some "QUJD 1", true))
    by (vm_compute; reflexivity).
  destruct (play twoCalls twoCallsSchedule) as [c|] eqn:E; [|discriminate Hfacts].
  injection Hfacts as Hfile Hadv.
  destruct (option_true _ Hadv) as [c' E'].
  change (advance c twoCallsOneMore = Some c') in E'.
  assert (Hr : reachable (initial (diskWorld false)
                            ["/data/cl100k.tiktoken"; "/data/cl100k.tiktoken"]) c)
    by exact (play_reachable twoCalls _ _ _ (reach_start _) E).
  exists c, c'. split; [reflexivity|]. split; [exact E'|]. split; [exact Hfile|].
  refine (cache_entries_stay _ _ c c' twoCallsPath Hr (advance_step _ _ _ E') _ _).
  - exists "/tmp/data-gym-cache", "/data/cl100k.tiktoken". vm_compute. reflexivity.
  - rewrite Hfile. eexists; reflexivity.
Defined.



End ConcMore.

(** ** The loader from end to end *)

Section LoaderMore.
Import Go Sys Load OS Spec Cache Worlds More.

(** The state a miss that succeeds leaves. *)
Lemma run_miss_success w blobpath serr b :
  fst (perform (Stat (cachePathOf w blobpath)) w) = Some serr ->
  value (run (readFileCached blobpath) w) = (b, None) ->
  value (run (readFile blobpath) w) = (b, None) /\
  files (after (run (readFileCached blobpath) w)) !! cachePathOf w blobpath = Some b.
Proof.
  intros Hs Hv.
  destruct (run_readFileCached_miss w blobpath serr Hs) as (tr0 & Hq & Hrun).
  rewrite Hrun in Hv |- *. clear Hrun.
  pose proof (run_readFile_frame blobpath w) as (_ & _ & Hfiles & _ & Hu & Hc & Hfa & Hsh).
  destruct (run (readFile blobpath) w) as [[[contents [e|]] w1] t1];
    unfold value, after in *; cbn [fst snd] in *; [discriminate|].
  rewrite run_populate_eq in Hv |- *. unfold tmpNameIn in *. rewrite Hu, Hc, Hfa in *.
  destruct (fault w _ (WriteFile _ contents ModePerm)); [discriminate|].
  destruct (fault w _ (Rename _ _)); [discriminate|].
  cbn [fst snd files setFiles] in *. injection Hv as ->.
  split; [reflexivity|apply lookup_insert_eq].
Qed.

(** The loader is the cache store and then the parser. *)
Lemma run_loadTiktokenBpe w blobpath :
  run (loadTiktokenBpe blobpath) w =
  let '(res, w1, tr) := run (readFileCached blobpath) w in
  (match res with
   | (_, Some e) => Failed e
   | (contents, None) => parseBpe contents
   end, w1, tr).
Proof.
  unfold loadTiktokenBpe. rewrite run_bind.
  destruct (run (readFileCached blobpath) w) as [[[contents [e|]] w1] tr];
    cbn [run]; rewrite app_nil_r; reflexivity.
Qed.

(** X24.  Loading twice gives one table: from a cache with no entry for the
    identifier, where [os.Stat] and the read of the cache path do not fail,
    when the first load gives a table the second load gives the same table,
    from the entry the first one made and with no call of the Source
    Reader. *)
Theorem load_twice_same_table (w : World) (blobpath : string) (m : RankTable) :
  files w !! cachePathOf w blobpath = None ->
  fault w _ (Stat (cachePathOf w blobpath)) = None ->
  fault w _ (ReadFile (cachePathOf w blobpath)) = None ->
  let x1 := run (LoadTiktokenBpe NewDefaultBpeLoader blobpath) w in
  value x1 = Ranks m ->
  let x2 := run (LoadTiktokenBpe NewDefaultBpeLoader blobpath) (after x1) in
  value x2 = Ranks m /\
  Forall (fun ev => isFetch ev = false) (trace x2).
Proof.
  intros Hnone Hs Hr. cbv zeta.
  cbn [LoadTiktokenBpe defaultBpeLoader_BpeLoader].
  rewrite !run_loadTiktokenBpe.
  pose proof (run_config (readFileCached blobpath) w) as (He & Ht & Hfa).
  assert (Hstat : fst (perform (Stat (cachePathOf w blobpath)) w)
                  = Some (notExist "stat" (cachePathOf w blobpath))).
  { cbn [perform]. rewrite Hs, Hnone. reflexivity. }
  pose proof (fun b => run_miss_success w blobpath _ b Hstat) as Hmiss.
  destruct (run (readFileCached blobpath) w) as [[[contents [e|]] w1] tr1];
    unfold value, after, trace in *; cbn [fst snd] in *; [discriminate|].
  intros Hparse. destruct (Hmiss contents eq_refl) as [_ Hfile].
  assert (Hp : cachePathOf w1 blobpath = cachePathOf w blobpath).
  { unfold cachePathOf. rewrite (cacheDirOf_same _ _ He Ht). reflexivity. }
  destruct (readFileCached_hit w1 blobpath contents) as (tr0 & Hq & ->).
  - rewrite Hp. exact Hfile.
  - rewrite Hp, Hfa. exact Hs.
  - rewrite Hp, Hfa. exact Hr.
  - cbn [fst snd]. split; [exact Hparse|].
    apply Forall_app. split.
    + eapply Forall_impl; [exact Hq|]. intros ev H. apply H.
    + repeat constructor.
Qed.

(** X24 at a disk with the rank file and no cache yet. *)
Lemma load_twice_same_table_witness :
  let x1 := run (LoadTiktokenBpe NewDefaultBpeLoader "/data/cl100k.tiktoken")
                (diskWorld false) in
  value x1 = Ranks {["ABC" := 1]} /\
  value (run (LoadTiktokenBpe NewDefaultBpeLoader "/data/cl100k.tiktoken") (after x1))
    = Ranks {["ABC" := 1]}.
Proof.
  assert (H1 : value (run (LoadTiktokenBpe NewDefaultBpeLoader "/data/cl100k.tiktoken")
                        (diskWorld false)) = Ranks {["ABC" := 1]})
    by (vm_compute; reflexivity).
  split; [exact H1|].
  refine (proj1 (load_twice_same_table (diskWorld false) "/data/cl100k.tiktoken"
                   {["ABC" := 1]} _ eq_refl eq_refl H1)).
  vm_compute. reflexivity.
Defined.

(** X25.  A cache entry that [os.Stat] and the read find and an embedded
    file with the same bytes load alike: the loader that goes through the
    cache and the loader that reads the embedded file give the same table,
    the same error or the same panic. *)
Theorem cached_and_embedded_agree (w : World) (blobpath : string) (fs : embedFS)
    (path contents : string) :
  files w !! cachePathOf w blobpath = Some contents ->
  fault w _ (Stat (cachePathOf w blobpath)) = None ->
  fault w _ (ReadFile (cachePathOf w blobpath)) = None ->
  fs !! path = Some (EmbedFile contents) ->
  value (run (LoadTiktokenBpe NewDefaultBpeLoader blobpath) w)
    = LoadTiktokenBpeFromFS NewDefaultBpeLoader fs path.
Proof.
  intros Hf Hs Hr Hfs.
  destruct (readFileCached_hit w blobpath contents Hf Hs Hr) as (tr0 & _ & Hrun).
  apply (loaders_agree w blobpath fs path contents); [|exact Hfs].
  rewrite Hrun. reflexivity.
Qed.

(** X25 at the cache entry of the rank file and the same file embedded. *)
Lemma cached_and_embedded_agree_witness :
  value (run (LoadTiktokenBpe NewDefaultBpeLoader "/data/cl100k.tiktoken") cachedWorld)
  = LoadTiktokenBpeFromFS NewDefaultBpeLoader
      {["cl100k.tiktoken" := EmbedFile "QUJD 1"]} "cl100k.tiktoken".
Proof.
  refine (cached_and_embedded_agree cachedWorld "/data/cl100k.tiktoken"
            {["cl100k.tiktoken" := EmbedFile "QUJD 1"]} "cl100k.tiktoken" "QUJD 1"
            _ eq_refl eq_refl _);
    vm_compute; reflexivity.
Defined.

(** X26.  The cache keeps whatever the server answered: on a miss for a URL,
    the body of the answer, whatever its status, is returned and becomes
    the entry, when it reads through and is written and renamed. *)
Theorem any_answer_is_cached (w : World) (url body : string) (status : Z)
    (serr : error) :
  let cachePath := cachePathOf w url in
  let tmp := tmpNameIn w cachePath in
  isHTTP url = true ->
  net w url = inl (status, body) ->
  fst (perform (Stat cachePath) w) = Some serr ->
  fault w _ (ReadAll (length (handles w))) = None ->
  fault w _ (WriteFile tmp body ModePerm) = None ->
  fault w _ (Rename tmp cachePath) = None ->
  let x := run (readFileCached url) w in
  value x = (body, None) /\ files (after x) !! cachePath = Some body.
Proof.
  cbv zeta. intros Hh Hn Hs Hra Hw Hr.
  assert (Hf : value (run (readFile url) w) = (body, None)).
  { rewrite (run_readFile_http _ _ Hh), Hn. unfold value, readAllOf. cbn [fst].
    rewrite Hra. reflexivity. }
  destruct (run_miss_fetched w url serr body Hs Hf)
    as (tr0 & w1 & t1 & Hq & Hframe & Hnw & ->).
  destruct Hframe as (_ & _ & Hfiles & _ & Hu & Hc & Hfa & Hsh).
  rewrite run_populate_eq. unfold tmpNameIn in *. rewrite Hu, Hc, Hfa, Hw, Hr.
  unfold value, after. cbn [fst snd files setFiles].
  split; [reflexivity|apply lookup_insert_eq].
Qed.

(** X26 at a server that answers 404. *)
Lemma any_answer_is_cached_witness :
  let url := "https://example.com/cl100k.tiktoken" in
  let x := run (readFileCached url) world404 in
  net world404 url = inl (404, "404 page not found") /\
  value x = ("404 page not found", None) /\
  files (after x) !! cachePathOf world404 url = Some "404 page not found".
Proof.
  split; [reflexivity|].
  refine (any_answer_is_cached world404 "https://example.com/cl100k.tiktoken"
            "404 page not found" 404
            (notExist "stat" (cachePathOf world404 "https://example.com/cl100k.tiktoken"))
            eq_refl eq_refl _ eq_refl eq_refl eq_refl).
  vm_compute. reflexivity.
Defined.

End LoaderMore.

(** ** Two calls, one after the other *)

Section Twice.
Import Go Sys Load OS Spec Cache Worlds More.

(** C7, as stated, fails: from an empty cache and with a fixed payload, the
    first call succeeds and makes the entry, and the second call returns
    the error of reading the entry, not the bytes, when that read fails. *)
Lemma C7_counterexample :
  ~ (forall (w : World) (blobpath payload b1 : string),
       files w !! cachePathOf w blobpath = None ->
       let x1 := run (readFileCached blobpath) w in
       fixedPayload blobpath payload w ->
       fixedPayload blobpath payload (after x1) ->
       value x1 = (b1, None) ->
       value (run (readFileCached blobpath) (after x1)) = (b1, None)).
Proof.
  intros H.
  specialize (H (worldWith rankFile readFileFails None) "/data/cl100k.tiktoken"
                "QUJD 1" "QUJD 1").
  cbv zeta in H.
  assert (H2 : value (run (readFileCached "/data/cl100k.tiktoken")
                        (after (run (readFileCached "/data/cl100k.tiktoken")
                                  (worldWith rankFile readFileFails None))))
               = ("QUJD 1", None)).
  { apply H.
    - vm_compute. reflexivity.
    - intros b Hb. vm_compute in Hb. congruence.
    - intros b Hb. vm_compute in Hb. congruence.
    - vm_compute. reflexivity. }
  vm_compute in H2. discriminate H2.
Qed.

(** C7, amended.  From a cache with no file for the identifier, a first call
    that succeeds leaves a file at the cache path that holds the bytes it
    returned.  A second call returns the same bytes, with no call of the
    Source Reader, when [os.Stat] and the read of the entry succeed; and
    when the source has a fixed payload, the first call returned that
    payload and a second call that succeeds returns the same bytes, from
    the entry or, when [os.Stat] fails, from the source again.  A second
    call can fail. *)
Theorem C7_second_call_same_bytes (w : World) (blobpath b1 : string) :
  files w !! cachePathOf w blobpath = None ->
  let x1 := run (readFileCached blobpath) w in
  value x1 = (b1, None) ->
  let x2 := run (readFileCached blobpath) (after x1) in
  cachePathOf (after x1) blobpath = filepathJoin (cacheDirOf w) (cacheKeyOf blobpath) /\
  files (after x1) !! filepathJoin (cacheDirOf w) (cacheKeyOf blobpath) = Some b1 /\
  (fault w _ (Stat (cachePathOf w blobpath)) = None ->
   fault w _ (ReadFile (cachePathOf w blobpath)) = None ->
   value x2 = (b1, None) /\ Forall (fun e => isFetch e = false) (trace x2)) /\
  (forall payload,
     fixedPayload blobpath payload w ->
     fixedPayload blobpath payload (after x1) ->
     b1 = payload /\ forall b2, value x2 = (b2, None) -> b2 = b1).
Proof.
  intros Hnone. cbv zeta. intros H1.
  pose proof (run_config (readFileCached blobpath) w) as (He & Ht & Hfa).
  assert (Hp : cachePathOf (after (run (readFileCached blobpath) w)) blobpath
               = cachePathOf w blobpath).
  { unfold cachePathOf. rewrite (cacheDirOf_same _ _ He Ht). reflexivity. }
  assert (Hstat : exists serr, fst (perform (Stat (cachePathOf w blobpath)) w) = Some serr).
  { cbn [perform]. rewrite Hnone.
    destruct (fault w _ (Stat _)) as [e|]; eexists; reflexivity. }
  destruct Hstat as [serr Hstat].
  destruct (run_miss_success w blobpath serr b1 Hstat H1) as [Hsrc Hfile].
  split; [exact Hp|]. split; [exact Hfile|]. split.
  - intros Hs Hr.
    destruct (readFileCached_hit (after (run (readFileCached blobpath) w)) blobpath b1)
      as (tr0 & Hq & ->).
    + rewrite Hp. exact Hfile.
    + rewrite Hp, Hfa. exact Hs.
    + rewrite Hp, Hfa. exact Hr.
    + unfold value, trace. cbn [fst snd]. split; [reflexivity|].
      apply Forall_app. split.
      * eapply Forall_impl; [exact Hq|]. intros ev H. apply H.
      * repeat constructor.
  - intros payload Hw Hw1. split; [exact (Hw b1 Hsrc)|].
    intros b2 H2.
    set (w1 := after (run (readFileCached blobpath) w)) in *.
    destruct (fst (perform (Stat (cachePathOf w1 blobpath)) w1)) as [serr1|] eqn:Hs1.
    + destruct (run_miss_success w1 blobpath serr1 b2 Hs1 H2) as [Hsrc2 _].
      rewrite (Hw1 b2 Hsrc2). symmetry. exact (Hw b1 Hsrc).
    + destruct (run_readFileCached_hit w1 blobpath Hs1) as (tr0 & _ & Hrun).
      rewrite Hrun in H2. unfold value in H2. cbn [fst perform] in H2.
      rewrite Hp in H2. fold (cachePathOf w blobpath) in Hfile. rewrite Hfile in H2.
      destruct (fault w1 _ (ReadFile (cachePathOf w blobpath))); cbn [fst] in H2;
        congruence.
Qed.

(** C7 at a disk with the rank file and no cache yet. *)
Lemma C7_second_call_same_bytes_witness :
  let w := diskWorld false in
  let x1 := run (readFileCached "/data/cl100k.tiktoken") w in
  files w !! cachePathOf w "/data/cl100k.tiktoken" = None /\
  value x1 = ("QUJD 1", None) /\
  value (run (readFileCached "/data/cl100k.tiktoken") (after x1)) = ("QUJD 1", None) /\
  files (after x1) !! "/tmp/data-gym-cache/787ec68696af9df78cb60f4e9341b3128838ab93"
    = Some "QUJD 1".
Proof.
  cbv zeta.
  assert (Hn : files (diskWorld false) !! cachePathOf (diskWorld false) "/data/cl100k.tiktoken"
               = None) by (vm_compute; reflexivity).
  assert (H1 : value (run (readFileCached "/data/cl100k.tiktoken") (diskWorld false))
               = ("QUJD 1", None)) by (vm_compute; reflexivity).
  pose proof (C7_second_call_same_bytes (diskWorld false) "/data/cl100k.tiktoken" "QUJD 1"
                Hn H1) as H.
  cbv zeta in H. destruct H as (_ & Hf & H2 & _).
  destruct (H2 eq_refl eq_refl) as [Hv _].
  split; [exact Hn|]. split; [exact H1|]. split; [exact Hv|exact Hf].
Defined.

End Twice.
